(** * Matrix addition workshop harness (Lesson_1_matrixAdd/CUDA/exercise)

  A shallow embedding of [main.cpp] and of the routines it calls.

  - [CInt]: the C integer types the harness computes with.
  - [Libc]: [atoi], as ISO C specifies it.
  - [Harness]: [main], statement by statement, as a computation in a small
    trace-and-halt monad; the routines of [pch.h] are recorded as call
    events.
  - [Kernels]: the routines declared in [pch.h] (initialisation, host add,
    accelerator add, verification) on buffers of binary32 cells. *)

From Stdlib Require Import ZArith List Ascii String Lia Bool.
From Stdlib Require Import Floats.SpecFloat.
From stdpp Require Import base option list strings.

(* ===================================================================== *)
(** ** C integers *)
(* ===================================================================== *)

Module CInt.
Local Open Scope Z_scope.

(** [int] is 32 bits wide, [size_t] 64 bits (LP64, the host ABI of the
    CUDA toolchain). *)
Definition INT_MIN : Z := - 2 ^ 31.
Definition INT_MAX : Z := 2 ^ 31 - 1.
Definition SIZE_MODULUS : Z := 2 ^ 64.

Definition in_int (z : Z) : bool := (INT_MIN <=? z) && (z <=? INT_MAX).

(** Conversion of a (signed) value to [size_t]: reduction modulo 2^64. *)
Definition to_size_t (z : Z) : Z := z mod SIZE_MODULUS.

(** [a * b] on [int]: the result when representable; signed overflow has
    no defined behaviour. *)
Definition int_mul (a b : Z) : option Z :=
  if in_int (a * b) then Some (a * b) else None.

(** [sizeof(float)]. *)
Definition SIZEOF_FLOAT : Z := 4.

(** [n * sizeof(float)] where [n : int]: [n] is converted to [size_t] and
    the product wraps. *)
Definition times_sizeof_float (n : Z) : Z :=
  to_size_t (to_size_t n * SIZEOF_FLOAT).
End CInt.

(* ===================================================================== *)
(** ** The C library's atoi *)
(* ===================================================================== *)

Module Libc.
Local Open Scope Z_scope.

(** [isspace] in the C locale. *)
Definition isspace (c : ascii) : bool :=
  let n := Z.of_nat (nat_of_ascii c) in
  (n =? 32) || ((9 <=? n) && (n <=? 13)).

Definition digit (c : ascii) : option Z :=
  let n := Z.of_nat (nat_of_ascii c) in
  if (48 <=? n) && (n <=? 57) then Some (n - 48) else None.

Fixpoint skip_spaces (s : string) : string :=
  match s with
  | String c r => if isspace c then skip_spaces r else s
  | EmptyString => s
  end.

(** The longest prefix of decimal digits, accumulated from [acc]. *)
Fixpoint digits (s : string) (acc : Z) : Z :=
  match s with
  | String c r =>
      match digit c with
      | Some d => digits r (acc * 10 + d)
      | None => acc
      end
  | EmptyString => acc
  end.

(** [atoi(s)] for a non-null [s] (ISO C 7.22.1): leading white space is
    skipped, an optional sign is read, then the decimal digits; anything
    after them is ignored and no digits give [0].  When the value is not
    representable in [int] the behaviour is undefined: [None]. *)
Definition atoi (s : string) : option Z :=
  let s := skip_spaces s in
  let '(neg, s) :=
    match s with
    | String "-"%char r => (true, r)
    | String "+"%char r => (false, r)
    | _ => (false, s)
    end in
  let v := digits s 0 in
  let v := if neg then - v else v in
  if CInt.in_int v then Some v else None.
End Libc.

(* ===================================================================== *)
(** ** The harness: main *)
(* ===================================================================== *)

Module Harness.
Local Open Scope Z_scope.

(** Host addresses; [NULL] is what a failed [malloc] returns. *)
Definition ptr : Type := Z.
Definition NULL : ptr := 0.

(** The macros of [pch.h] that [main] mentions. *)
Inductive macro := MAT_A_VAL | MAT_B_VAL | VERIF_TOL.

(** Modelled from the spec: [pch.h] (which defines [DEFAULT_DIM]) is not
    part of the sources; the comment at [main.cpp:24] and the spec give
    1024. *)
Definition DEFAULT_DIM : Z := 1024.

(** What [main] does that is visible from outside, in program order.  A
    call of a routine of [pch.h] is recorded with its arguments; what the
    routine does with them is the subject of [Kernels].  A trace lists what
    [main] does as long as the routines it calls return. *)
Inductive event :=
| Clock                                      (* high_resolution_clock::now() *)
| Printf (fmt : string)                      (* printf(fmt, ...) *)
| Malloc (bytes : Z) (ret : ptr)             (* malloc(bytes), and its result *)
| InitializeMatrixSame (m : ptr) (dx dy : Z) (v : macro) (name : string)
| CpuMatrixAdd (a b c : ptr) (dx dy : Z)
| GpuMatrixAdd (a b c : ptr) (dx dy : Z)
| PrintMatrix (m : ptr) (dx dy : Z)
| MatrixVerification (a b : ptr) (dx dy : Z) (tol : macro) (agree : bool)
| Free (p : ptr).

(** Undefined behaviour [main] can run into. *)
Inductive undefined := AtoiNull | AtoiRange | IntOverflow.

(** How a run ends: [main] returns, or its behaviour is undefined. *)
Inductive ending := Return (code : Z) | Undefined (why : undefined).

(** The environment of a run: what the [k]-th call of [malloc] returns for
    a request of [bytes] bytes, and whether the two result matrices agree
    when [MatrixVerification] compares them. *)
Record world := {
  alloc : nat -> Z -> ptr;
  verdict : bool
}.

Record state := { trace : list event; mallocs : nat }.

Inductive step (A : Type) :=
| Halt (e : ending)
| Next (a : A).
Arguments Halt {A} e.
Arguments Next {A} a.

(** Computations of the harness: they extend the trace and either halt the
    run or go on with a value. *)
Definition M (A : Type) : Type := state -> state * step A.

#[export] Instance M_ret : MRet M := fun A a s => (s, Next a).
#[export] Instance M_bind : MBind M := fun A B f m s =>
  match m s with
  | (s', Next a) => f a s'
  | (s', Halt e) => (s', Halt e)
  end.

Definition emit (e : event) : M unit := fun s =>
  ({| trace := trace s ++ [e]; mallocs := mallocs s |}, Next tt).

Definition halt {A} (e : ending) : M A := fun s => (s, Halt e).

Definition attempt {A} (o : option A) (why : undefined) : M A :=
  match o with
  | Some a => mret a
  | None => halt (Undefined why)
  end.

Definition malloc (w : world) (bytes : Z) : M ptr := fun s =>
  let p := alloc w (mallocs s) bytes in
  ({| trace := trace s ++ [Malloc bytes p]; mallocs := S (mallocs s) |}, Next p).

(** [atoi(argv[i])]: [argv[i]] for [i < argc] is the [i]-th argument;
    [argv[argc]] is a null pointer, and [atoi] of it is undefined. *)
Definition atoi_arg (argv : list string) (i : nat) : M Z :=
  s ← attempt (argv !! i) AtoiNull;
  attempt (Libc.atoi s) AtoiRange.

(** [malloc(dx*dy*sizeof(float))]. *)
Definition malloc_matrix (w : world) (dx dy : Z) : M ptr :=
  n ← attempt (CInt.int_mul dx dy) IntOverflow;
  malloc w (CInt.times_sizeof_float n).

(** The three-way test on [argc] at [main.cpp:17-27]. *)
Inductive arg_branch := ParseArgs | UsageError | Defaults.

Definition classify (argc : Z) : arg_branch :=
  if (1 <? argc) && (argc <? 4) then ParseArgs
  else if 4 <=? argc then UsageError
  else Defaults.

Definition usage : string := "Usage: ./executable dimX dimY
".

(** [main.cpp:17-27]. *)
Definition resolve_dims (argv : list string) : M (Z * Z) :=
  let argc := Z.of_nat (length argv) in
  match classify argc with
  | ParseArgs =>
      dx ← atoi_arg argv 1;
      dy ← atoi_arg argv 2;
      mret (dx, dy)
  | UsageError =>
      emit (Printf usage);;
      halt (Return (-1))
  | Defaults =>
      mret (DEFAULT_DIM, DEFAULT_DIM)
  end.

(** [main.cpp:60]. *)
Definition small (dx dy : Z) : bool := (dx <=? 6) && (dy <=? 6).

(** [main.cpp:29-74]. *)
Definition run_phases (w : world) (dx dy : Z) : M Z :=
  emit Clock;;
  h_A ← malloc_matrix w dx dy;
  h_B ← malloc_matrix w dx dy;
  h_C ← malloc_matrix w dx dy;
  h_check ← malloc_matrix w dx dy;
  emit (InitializeMatrixSame h_A dx dy MAT_A_VAL "h_A");;
  emit (InitializeMatrixSame h_B dx dy MAT_B_VAL "h_B");;
  emit Clock;;
  emit (Printf "Init took %f seconds. Begin compute.
");;
  emit Clock;;
  emit (CpuMatrixAdd h_A h_B h_check dx dy);;
  emit Clock;;
  emit (Printf "CPU Matrix Addition took %f seconds.
");;
  emit Clock;;
  emit (GpuMatrixAdd h_A h_B h_C dx dy);;
  emit Clock;;
  emit (Printf "GPU Matrix Addition took %f seconds.
");;
  (if small dx dy then
     emit (Printf "
CPU Matrix Addition Results: 
");;
     emit (PrintMatrix h_check dx dy);;
     emit (Printf "
GPU Matrix Addition Results: 
");;
     emit (PrintMatrix h_C dx dy)
   else mret tt);;
  emit (MatrixVerification h_check h_C dx dy VERIF_TOL (verdict w));;
  emit (Free h_A);;
  emit (Free h_B);;
  emit (Free h_C);;
  emit (Free h_check);;
  mret 0.

Definition main_body (w : world) (argv : list string) : M Z :=
  '(dx, dy) ← resolve_dims argv;
  run_phases w dx dy.

(** The state [main] starts in. *)
Definition start : state := {| trace := []; mallocs := 0 |}.

(** A finished run: what happened, and how it ended. *)
Record run := { events : list event; result : ending }.

Definition main (w : world) (argv : list string) : run :=
  match main_body w argv start with
  | (s, Next code) => {| events := trace s; result := Return code |}
  | (s, Halt e) => {| events := trace s; result := e |}
  end.

(** The run that only prints the usage message. *)
Definition usage_run : run :=
  {| events := [Printf usage]; result := Return (-1) |}.

(** The status the parent process sees: the low eight bits of the value
    [main] returns. *)
Definition exit_status (code : Z) : Z := code mod 256.

(** The events of a run that gets through every phase with dimensions
    [dx], [dy], written out. *)
Definition complete_events (w : world) (dx dy : Z) : list event :=
  let bytes := CInt.times_sizeof_float (dx * dy) in
  let h_A := alloc w 0 bytes in
  let h_B := alloc w 1 bytes in
  let h_C := alloc w 2 bytes in
  let h_check := alloc w 3 bytes in
  [ Clock;
    Malloc bytes h_A; Malloc bytes h_B; Malloc bytes h_C; Malloc bytes h_check;
    InitializeMatrixSame h_A dx dy MAT_A_VAL "h_A";
    InitializeMatrixSame h_B dx dy MAT_B_VAL "h_B";
    Clock; Printf "Init took %f seconds. Begin compute.
";
    Clock; CpuMatrixAdd h_A h_B h_check dx dy;
    Clock; Printf "CPU Matrix Addition took %f seconds.
";
    Clock; GpuMatrixAdd h_A h_B h_C dx dy;
    Clock; Printf "GPU Matrix Addition took %f seconds.
" ]
  ++ (if small dx dy then
        [ Printf "
CPU Matrix Addition Results: 
"; PrintMatrix h_check dx dy;
          Printf "
GPU Matrix Addition Results: 
"; PrintMatrix h_C dx dy ]
      else [])
  ++ [ MatrixVerification h_check h_C dx dy VERIF_TOL (verdict w);
       Free h_A; Free h_B; Free h_C; Free h_check ].

(** *** Reading a trace *)

Definition is_malloc (e : event) : bool :=
  match e with Malloc _ _ => true | _ => false end.

(** The compute phases: the host and the accelerator addition. *)
Definition is_compute (e : event) : bool :=
  match e with CpuMatrixAdd _ _ _ _ _ | GpuMatrixAdd _ _ _ _ _ => true | _ => false end.

(** A matrix dump. *)
Definition is_dump (e : event) : bool :=
  match e with PrintMatrix _ _ _ => true | _ => false end.

(** A call of one of the routines of [pch.h]. *)
Definition is_routine (e : event) : bool :=
  match e with
  | InitializeMatrixSame _ _ _ _ _ | CpuMatrixAdd _ _ _ _ _
  | GpuMatrixAdd _ _ _ _ _ | PrintMatrix _ _ _
  | MatrixVerification _ _ _ _ _ _ => true
  | Clock | Printf _ | Malloc _ _ | Free _ => false
  end.

(** The buffers a call is handed. *)
Definition buffers (e : event) : list ptr :=
  match e with
  | InitializeMatrixSame m _ _ _ _ | PrintMatrix m _ _ => [m]
  | CpuMatrixAdd a b c _ _ | GpuMatrixAdd a b c _ _ => [a; b; c]
  | MatrixVerification a b _ _ _ _ => [a; b]
  | Free p => [p]
  | Clock | Printf _ | Malloc _ _ => []
  end.

(** Modelled from the spec: which buffers a routine of [pch.h] reads and
    which it fills completely are the contracts of spec 4.1 to 4.4 (the
    routines themselves are outside the sources). *)
Definition reads (e : event) : list ptr :=
  match e with
  | CpuMatrixAdd a b _ _ _ | GpuMatrixAdd a b _ _ _ => [a; b]
  | PrintMatrix m _ _ => [m]
  | MatrixVerification a b _ _ _ _ => [a; b]
  | _ => []
  end.

Definition fills (e : event) : list ptr :=
  match e with
  | InitializeMatrixSame m _ _ _ _ => [m]
  | CpuMatrixAdd _ _ c _ _ | GpuMatrixAdd _ _ c _ _ => [c]
  | _ => []
  end.

Definition mem (p : ptr) (l : list ptr) : bool := existsb (Z.eqb p) l.

(** The buffers that hold data after an event, given those that did before
    it: a routine fills its output; a block is indeterminate again when
    [malloc] hands it out and when it is freed. *)
Definition after (ready : list ptr) (e : event) : list ptr :=
  match e with
  | Malloc _ p | Free p => List.filter (fun q => negb (Z.eqb p q)) ready
  | _ => fills e ++ ready
  end.

(** Every buffer is filled before it is read; [ready] are the buffers
    filled so far. *)
Fixpoint filled_before_read (ready : list ptr) (t : list event) : bool :=
  match t with
  | [] => true
  | e :: t' =>
      forallb (fun p => mem p ready) (reads e) &&
      filled_before_read (after ready e) t'
  end.

(** The events before the first compute phase. *)
Fixpoint before_compute (t : list event) : list event :=
  match t with
  | [] => []
  | e :: t' => if is_compute e then [] else e :: before_compute t'
  end.

(** An event with the addresses blanked out. *)
Definition shape (e : event) : event :=
  match e with
  | Malloc bytes _ => Malloc bytes NULL
  | InitializeMatrixSame _ dx dy v name => InitializeMatrixSame NULL dx dy v name
  | CpuMatrixAdd _ _ _ dx dy => CpuMatrixAdd NULL NULL NULL dx dy
  | GpuMatrixAdd _ _ _ dx dy => GpuMatrixAdd NULL NULL NULL dx dy
  | PrintMatrix _ dx dy => PrintMatrix NULL dx dy
  | MatrixVerification _ _ dx dy tol agree =>
      MatrixVerification NULL NULL dx dy tol agree
  | Free _ => Free NULL
  | Clock | Printf _ => e
  end.

(** A world whose allocator hands out distinct non-null blocks. *)
Definition roomy (agree : bool) : world :=
  {| alloc := fun k bytes => 4096 * (Z.of_nat k + 1); verdict := agree |}.

(** A world whose allocator always fails. *)
Definition exhausted : world :=
  {| alloc := fun _ _ => NULL; verdict := true |}.
End Harness.

(* ===================================================================== *)
(** ** The routines behind the calls: pch.h *)
(* ===================================================================== *)

Module Kernels.

(** *** binary32 cells *)

(** C's [float] is IEEE 754 binary32: 24 bits of precision, infinities at
    exponent 128. *)
Definition prec : Z := 24.
Definition emax : Z := 128.
Definition float : Type := spec_float.

Definition fadd : float -> float -> float := SFadd prec emax.
Definition fsub : float -> float -> float := SFsub prec emax.
Definition fabs : float -> float := SFabs.
Definition fle : float -> float -> bool := SFleb.


(** Modelled from the spec: [pch.h], which defines the three macros, is not
    part of the sources.  The fill values 3.0 and 2.0 are those of the
    comment at [main.cpp:37] and of the spec's scenario, the tolerance 1e-5
    that of the scenario (here the binary32 number nearest to it). *)
Definition value_of (m : Harness.macro) : float :=
  match m with
  | Harness.MAT_A_VAL => S754_finite false 12582912 (-22)
  | Harness.MAT_B_VAL => S754_finite false 8388608 (-22)
  | Harness.VERIF_TOL => S754_finite false 10995116 (-40)
  end.

(** *** Buffers *)

(** A cell of a buffer holds a number once it has been written; before that
    its content is indeterminate. *)
Abbreviation cell := (option float).
Abbreviation buffer := (list cell).

(** A fresh block of [n] cells, as [malloc] or [cudaMalloc] returns it. *)
Definition fresh (n : nat) : buffer := replicate n None.

(** [m[i]] as a value: fails outside the block and on an indeterminate
    cell. *)
Definition load (m : buffer) (i : nat) : option float := mjoin (m !! i).

(** [m[i] = v]: fails outside the block. *)
Definition store (m : buffer) (i : nat) (v : float) : option buffer :=
  if decide (i < length m) then Some (<[i := Some v]> m) else None.

(** [for (i in todo) s = body(i, s)], stopping at the first failure. *)
Fixpoint for_each {I S : Type} (todo : list I) (body : I -> S -> option S) (s : S)
  : option S :=
  match todo with
  | [] => Some s
  | i :: rest => s' ← body i s; for_each rest body s'
  end.

(** [for (i = 0; i < d; i++)] for an [int] bound [d]. *)
Definition upto (d : Z) : list nat := seq 0 (Z.to_nat d).

(** Row-major position of [(row, col)] in a matrix of width [dx]. *)
Definition at_ (dx : Z) (row col : nat) : nat := row * Z.to_nat dx + col.

(** Number of cells of a [dx] by [dy] matrix. *)
Definition cells (dx dy : Z) : nat := Z.to_nat (dx * dy).

(** *** MatrixInit *)

(** Modelled from the spec: the routine is declared in [pch.h] and defined
    outside the sources.  Spec 4.1: fills every cell of the [dx] by [dy]
    matrix with the constant. *)
Definition InitializeMatrixSame
    (m : buffer) (dx dy : Z) (val : float) (name : string) : option buffer :=
  for_each (upto dy) (fun row m =>
    for_each (upto dx) (fun col m =>
      store m (at_ dx row col) val) m) m.

(** *** HostAdd *)

(** [C[i] = A[i] + B[i]]. *)
Definition add_cell (A B : buffer) (i : nat) (C : buffer) : option buffer :=
  a ← load A i;
  b ← load B i;
  store C i (fadd a b).

(** Modelled from the spec: the routine is declared in [pch.h] and defined
    outside the sources.  Spec 4.2: writes [output[i] = A[i] + B[i]] for
    every cell by sequential iteration. *)
Definition cpu_matrix_add (A B C : buffer) (dx dy : Z) : option buffer :=
  for_each (upto dy) (fun row C =>
    for_each (upto dx) (fun col C =>
      add_cell A B (at_ dx row col) C) C) C.

(** *** DeviceAdd *)

Record dim3 := { x : nat; y : nat }.

(** One execution unit of a launch. *)
Record thread := { blockIdx : dim3; threadIdx : dim3 }.

Definition ceil_div (a b : nat) : nat := (a + b - 1) / b.

(** All units of a launch with [grid] blocks of [block] threads. *)
Definition threads (grid block : dim3) : list thread :=
  by_ ← seq 0 (y grid);
  bx ← seq 0 (x grid);
  ty ← seq 0 (y block);
  tx ← seq 0 (x block);
  [ {| blockIdx := {| x := bx; y := by_ |};
       threadIdx := {| x := tx; y := ty |} |} ].


Section Device.
(** Threads along each edge of a block ([pch.h]). *)
Variable BLOCK_SIZE : nat.

Definition block : dim3 := {| x := BLOCK_SIZE; y := BLOCK_SIZE |}.

(** Enough blocks to cover [dx] columns and [dy] rows. *)
Definition grid (dx dy : Z) : dim3 :=
  {| x := ceil_div (Z.to_nat dx) BLOCK_SIZE;
     y := ceil_div (Z.to_nat dy) BLOCK_SIZE |}.

(** The cell a unit is in charge of, if it lies inside the matrix. *)
Definition cell_of (dx dy : Z) (t : thread) : option nat :=
  let col := x (blockIdx t) * BLOCK_SIZE + x (threadIdx t) in
  let row := y (blockIdx t) * BLOCK_SIZE + y (threadIdx t) in
  if decide (col < Z.to_nat dx /\ row < Z.to_nat dy)
  then Some (at_ dx row col)
  else None.

(** The kernel, as one unit runs it: a boundary check, then one cell. *)
Definition matrix_add_kernel
    (d_A d_B : buffer) (dx dy : Z) (t : thread) (d_C : buffer) : option buffer :=
  match cell_of dx dy t with
  | Some i => add_cell d_A d_B i d_C
  | None => Some d_C
  end.

(** A launch runs the kernel once per unit of the schedule. *)
Definition launch (schedule : list thread)
    (kernel : thread -> buffer -> option buffer) (d_C : buffer) : option buffer :=
  for_each schedule kernel d_C.

End Device.

(** *** Verify *)

(** Two cells match when their absolute difference is at most the
    tolerance. *)
Definition close (tol a b : float) : bool := fle (fabs (fsub a b)) tol.

(** Modelled from the spec: the routine is declared in [pch.h] and defined
    outside the sources.  Spec 4.4: compares every pair of corresponding
    cells and reports the number of mismatches. *)
Definition MatrixVerification
    (A B : buffer) (dx dy : Z) (tol : float) : option nat :=
  for_each (upto dy) (fun row bad =>
    for_each (upto dx) (fun col bad =>
      a ← load A (at_ dx row col);
      b ← load B (at_ dx row col);
      Some (if close tol a b then bad else S bad)) bad) 0.

(** *** Closed forms *)

(** [m[i] = v(i)], where computing [v(i)] may itself fail. *)
Definition put (v : nat -> option float) (i : nat) (m : buffer) : option buffer :=
  r ← v i; store m i r.

(** The sum of the two cells at position [i]. *)
Definition sum_at (A B : buffer) (i : nat) : option float :=
  a ← load A i; b ← load B i; Some (fadd a b).

(** The buffer of [n] cells whose cell [i] is [v(i)]. *)
Definition tabulate (v : nat -> cell) (n : nat) : buffer := v <$> seq 0 n.

(** Every cell has been written. *)
Definition initialised (m : buffer) : Prop := Forall is_Some m.

(** The positions the two nested loops visit, in order. *)
Definition row_major (nx ny : nat) : list nat :=
  row ← seq 0 ny; col ← seq 0 nx; [row * nx + col].

(** *** The data that flows through main *)

End Kernels.

(* ===================================================================== *)
(** ** More ways to read a run *)
(* ===================================================================== *)

Module Coverage.
Import Harness.
Local Open Scope Z_scope.

(** The blocks [malloc] returned, in the order of the calls. *)
Definition obtained (t : list event) : list ptr :=
  omap (fun e => match e with Malloc _ p => Some p | _ => None end) t.

(** The blocks passed to [free], in the order of the calls. *)
Definition released (t : list event) : list ptr :=
  omap (fun e => match e with Free p => Some p | _ => None end) t.

Definition is_free (e : event) : bool :=
  match e with Free _ => true | _ => false end.

(** Once a block has been freed, nothing but further frees happens. *)
Fixpoint quiet_after_free (t : list event) : bool :=
  match t with
  | [] => true
  | e :: t' => if is_free e then forallb is_free t' else quiet_after_free t'
  end.

(** Every buffer handed to a routine or to [free] is one of [pool]. *)
Definition uses_only (pool : list ptr) (t : list event) : bool :=
  forallb (fun e => forallb (fun p => mem p pool) (buffers e)) t.

(** The timed intervals of a trace: [main] reads the clock in pairs
    ([t0], then [t1]) and reports [t1 - t0]; an interval holds the events
    between the two readings of a pair.  [open] is the interval under way,
    most recent event first, if the last reading was a [t0]. *)
Fixpoint intervals (open : option (list event)) (t : list event)
  : list (list event) :=
  match t with
  | [] => []
  | e :: t' =>
      match e, open with
      | Clock, None => intervals (Some []) t'
      | Clock, Some seg => rev seg :: intervals None t'
      | _, None => intervals None t'
      | _, Some seg => intervals (Some (e :: seg)) t'
      end
  end.

(** A non-empty string of decimal digits. *)
Fixpoint all_digits (s : string) : bool :=
  match s with
  | EmptyString => true
  | String c r =>
      match Libc.digit c with Some _ => all_digits r | None => false end
  end.

Definition numeral (s : string) : bool :=
  match s with EmptyString => false | _ => all_digits s end.

(** Text that ends a number: empty, or starting with a non-digit. *)
Definition stops (s : string) : bool :=
  match s with
  | EmptyString => true
  | String c _ => match Libc.digit c with Some _ => false | None => true end
  end.

(** Text that does not start a number: empty, or starting with a character
    that is neither white space, a sign nor a digit. *)
Definition wordy (s : string) : bool :=
  match s with
  | EmptyString => true
  | String c _ =>
      negb (Libc.isspace c) && negb (Ascii.eqb c "-") && negb (Ascii.eqb c "+")
      && match Libc.digit c with Some _ => false | None => true end
  end.
End Coverage.

Module HarnessFacts.
Import Harness.
Local Open Scope Z_scope.

Lemma classify_parse argc : 2 <= argc <= 3 -> classify argc = ParseArgs.
Proof.
  intros H. unfold classify.
  destruct (Z.ltb_spec 1 argc), (Z.ltb_spec argc 4); simpl; try lia; reflexivity.
Qed.

Lemma classify_usage argc : 4 <= argc -> classify argc = UsageError.
Proof.
  intros H. unfold classify.
  destruct (Z.ltb_spec 1 argc), (Z.ltb_spec argc 4), (Z.leb_spec 4 argc);
    simpl; try lia; reflexivity.
Qed.

Lemma classify_defaults argc : argc <= 1 -> classify argc = Defaults.
Proof.
  intros H. unfold classify.
  destruct (Z.ltb_spec 1 argc), (Z.ltb_spec argc 4), (Z.leb_spec 4 argc);
    simpl; try lia; reflexivity.
Qed.

Lemma run_phases_complete w dx dy :
  CInt.in_int (dx * dy) = true ->
  run_phases w dx dy start =
    ({| trace := complete_events w dx dy; mallocs := 4 |}, Next 0).
Proof.
  intros H. unfold run_phases, malloc_matrix, CInt.int_mul, complete_events.
  rewrite H. destruct (small dx dy); reflexivity.
Qed.

Lemma run_phases_overflow w dx dy :
  CInt.in_int (dx * dy) = false ->
  run_phases w dx dy start =
    ({| trace := [Clock]; mallocs := 0 |}, Halt (Undefined IntOverflow)).
Proof.
  intros H. unfold run_phases, malloc_matrix, CInt.int_mul.
  rewrite H. reflexivity.
Qed.

(** *** Resolving the dimensions *)

Lemma resolve_usage argv s :
  (4 <= length argv)%nat ->
  resolve_dims argv s
  = ({| trace := trace s ++ [Printf usage]; mallocs := mallocs s |},
     Halt (Return (-1))).
Proof.
  intros H. unfold resolve_dims. rewrite classify_usage by lia. reflexivity.
Qed.

Lemma resolve_defaults argv s :
  (length argv <= 1)%nat ->
  resolve_dims argv s = (s, Next (DEFAULT_DIM, DEFAULT_DIM)).
Proof.
  intros H. unfold resolve_dims. rewrite classify_defaults by lia. reflexivity.
Qed.

Lemma atoi_arg_value argv i a d s :
  argv !! i = Some a -> Libc.atoi a = Some d ->
  atoi_arg argv i s = (s, Next d).
Proof.
  intros Hl Ha. unfold atoi_arg, attempt, mbind, M_bind, mret, M_ret.
  rewrite Hl, Ha. reflexivity.
Qed.

Lemma atoi_arg_range argv i a s :
  argv !! i = Some a -> Libc.atoi a = None ->
  atoi_arg argv i s = (s, Halt (Undefined AtoiRange)).
Proof.
  intros Hl Ha. unfold atoi_arg, attempt, mbind, M_bind, mret, M_ret, halt.
  rewrite Hl, Ha. reflexivity.
Qed.

Lemma atoi_arg_null argv s :
  atoi_arg argv (length argv) s = (s, Halt (Undefined AtoiNull)).
Proof.
  unfold atoi_arg. rewrite (lookup_ge_None_2 argv (length argv)) by lia.
  reflexivity.
Qed.

(** The parsing branch, taken with one or two positional arguments. *)
Lemma resolve_parse argv s :
  (2 <= length argv <= 3)%nat ->
  resolve_dims argv s
  = (dx ← atoi_arg argv 1; dy ← atoi_arg argv 2; mret (dx, dy)) s.
Proof.
  intros H. unfold resolve_dims. by rewrite classify_parse by lia.
Qed.

Lemma resolve_two prog a b dx dy s :
  Libc.atoi a = Some dx -> Libc.atoi b = Some dy ->
  resolve_dims [prog; a; b] s = (s, Next (dx, dy)).
Proof.
  intros Ha Hb. rewrite resolve_parse by (simpl; lia).
  unfold mbind at 1, M_bind at 1.
  rewrite (atoi_arg_value _ 1 a dx) by done.
  unfold mbind at 1, M_bind at 1.
  by rewrite (atoi_arg_value _ 2 b dy) by done.
Qed.

Lemma resolve_bad_first prog a rest s :
  (length rest <= 1)%nat -> Libc.atoi a = None ->
  resolve_dims (prog :: a :: rest) s = (s, Halt (Undefined AtoiRange)).
Proof.
  intros Hlen Ha. rewrite resolve_parse by (simpl; lia).
  unfold mbind at 1, M_bind at 1.
  by rewrite (atoi_arg_range _ 1 a) by done.
Qed.

Lemma resolve_bad_second prog a b dx s :
  Libc.atoi a = Some dx -> Libc.atoi b = None ->
  resolve_dims [prog; a; b] s = (s, Halt (Undefined AtoiRange)).
Proof.
  intros Ha Hb. rewrite resolve_parse by (simpl; lia).
  unfold mbind at 1, M_bind at 1.
  rewrite (atoi_arg_value _ 1 a dx) by done.
  unfold mbind at 1, M_bind at 1.
  by rewrite (atoi_arg_range _ 2 b) by done.
Qed.

Lemma resolve_one prog a dx s :
  Libc.atoi a = Some dx ->
  resolve_dims [prog; a] s = (s, Halt (Undefined AtoiNull)).
Proof.
  intros Ha. rewrite resolve_parse by (simpl; lia).
  unfold mbind at 1, M_bind at 1.
  rewrite (atoi_arg_value _ 1 a dx) by done.
  unfold mbind at 1, M_bind at 1.
  by rewrite (atoi_arg_null [prog; a]).
Qed.

(** Every way [resolve_dims] can end. *)
Lemma resolve_cases argv :
  ((4 <= length argv)%nat /\
   resolve_dims argv start
   = ({| trace := [Printf usage]; mallocs := 0 |}, Halt (Return (-1))))
  \/ ((2 <= length argv <= 3)%nat /\
      exists u, resolve_dims argv start = (start, Halt (Undefined u)))
  \/ (exists dx dy, resolve_dims argv start = (start, Next (dx, dy))).
Proof.
  destruct argv as [|prog [|a [|b [|c rest]]]].
  - right; right. eexists _, _. apply resolve_defaults. simpl; lia.
  - right; right. eexists _, _. apply resolve_defaults. simpl; lia.
  - right; left. split; [simpl; lia|].
    destruct (Libc.atoi a) as [dx|] eqn:Ha.
    + exists AtoiNull. exact (resolve_one prog a dx start Ha).
    + exists AtoiRange. apply resolve_bad_first; [simpl; lia | exact Ha].
  - destruct (Libc.atoi a) as [dx|] eqn:Ha; [destruct (Libc.atoi b) as [dy|] eqn:Hb|].
    + right; right. exists dx, dy. exact (resolve_two prog a b dx dy start Ha Hb).
    + right; left. split; [simpl; lia|]. exists AtoiRange.
      exact (resolve_bad_second prog a b dx start Ha Hb).
    + right; left. split; [simpl; lia|]. exists AtoiRange.
      apply resolve_bad_first; [simpl; lia | exact Ha].
  - left. split; [simpl; lia|]. rewrite resolve_usage by (simpl; lia). reflexivity.
Qed.

(** *** Whole runs *)

Lemma main_resolved w argv dx dy :
  resolve_dims argv start = (start, Next (dx, dy)) ->
  main w argv =
    if CInt.in_int (dx * dy)
    then {| events := complete_events w dx dy; result := Return 0 |}
    else {| events := [Clock]; result := Undefined IntOverflow |}.
Proof.
  intros H. unfold main, main_body.
  unfold mbind at 1, M_bind. rewrite H.
  destruct (CInt.in_int (dx * dy)) eqn:Hin.
  - by rewrite run_phases_complete.
  - by rewrite run_phases_overflow.
Qed.

Lemma main_usage w argv : (4 <= length argv)%nat -> main w argv = usage_run.
Proof.
  intros H. unfold main, main_body. unfold mbind at 1, M_bind.
  by rewrite resolve_usage.
Qed.

(** Every way a run can end. *)
Lemma main_cases w argv :
  ((4 <= length argv)%nat /\ main w argv = usage_run)
  \/ ((2 <= length argv <= 3)%nat /\
      exists u, main w argv = {| events := []; result := Undefined u |})
  \/ (exists dx dy,
        resolve_dims argv start = (start, Next (dx, dy)) /\
        CInt.in_int (dx * dy) = false /\
        main w argv = {| events := [Clock]; result := Undefined IntOverflow |})
  \/ (exists dx dy,
        resolve_dims argv start = (start, Next (dx, dy)) /\
        CInt.in_int (dx * dy) = true /\
        main w argv = {| events := complete_events w dx dy; result := Return 0 |}).
Proof.
  destruct (resolve_cases argv) as [[Hlen H]|[[Hlen [u H]]|(dx & dy & H)]].
  - left. split; [done|]. by apply main_usage.
  - right; left. split; [done|]. exists u.
    unfold main, main_body. unfold mbind at 1, M_bind. by rewrite H.
  - right; right. pose proof (main_resolved w argv dx dy H) as Hm.
    destruct (CInt.in_int (dx * dy)) eqn:Hin; [right | left];
      exists dx, dy; done.
Qed.

(** *** Events of a complete run *)

Ltac elem_cases H :=
  repeat (apply elem_of_cons in H as [H|H]; [try discriminate H|]);
  try (by apply elem_of_nil in H).

Lemma complete_events_cpu (w : world) (dx dy : Z) (a b c : ptr) (x y : Z) :
  CpuMatrixAdd a b c x y ∈ complete_events w dx dy ->
  CpuMatrixAdd a b c x y
  = CpuMatrixAdd (alloc w 0 (CInt.times_sizeof_float (dx * dy)))
                 (alloc w 1 (CInt.times_sizeof_float (dx * dy)))
                 (alloc w 3 (CInt.times_sizeof_float (dx * dy))) dx dy.
Proof.
  unfold complete_events. destruct (small dx dy); simpl; intros H;
    elem_cases H; done.
Qed.

Lemma complete_events_gpu (w : world) (dx dy : Z) (a b c : ptr) (x y : Z) :
  GpuMatrixAdd a b c x y ∈ complete_events w dx dy ->
  GpuMatrixAdd a b c x y
  = GpuMatrixAdd (alloc w 0 (CInt.times_sizeof_float (dx * dy)))
                 (alloc w 1 (CInt.times_sizeof_float (dx * dy)))
                 (alloc w 2 (CInt.times_sizeof_float (dx * dy))) dx dy.
Proof.
  unfold complete_events. destruct (small dx dy); simpl; intros H;
    elem_cases H; done.
Qed.

Lemma complete_events_verification (w : world) (dx dy : Z) (a b : ptr) (x y : Z) tol agree :
  MatrixVerification a b x y tol agree ∈ complete_events w dx dy ->
  MatrixVerification a b x y tol agree
  = MatrixVerification (alloc w 3 (CInt.times_sizeof_float (dx * dy)))
                       (alloc w 2 (CInt.times_sizeof_float (dx * dy)))
                       dx dy VERIF_TOL (verdict w).
Proof.
  unfold complete_events. destruct (small dx dy); simpl; intros H;
    elem_cases H; done.
Qed.

Lemma complete_events_malloc (w : world) (dx dy bytes : Z) (p : ptr) :
  Malloc bytes p ∈ complete_events w dx dy ->
  bytes = CInt.times_sizeof_float (dx * dy) /\
  exists k, (k < 4)%nat /\ p = alloc w k bytes.
Proof.
  unfold complete_events. destruct (small dx dy); simpl; intros H;
    elem_cases H; injection H as -> ->; (split; [done|]).
  all: first [ by exists 0%nat; split; [lia|] | by exists 1%nat; split; [lia|]
             | by exists 2%nat; split; [lia|] | by exists 3%nat; split; [lia|] ].
Qed.

Lemma complete_events_mallocs (w : world) (dx dy : Z) :
  List.filter is_malloc (complete_events w dx dy)
  = let bytes := CInt.times_sizeof_float (dx * dy) in
    [ Malloc bytes (alloc w 0 bytes); Malloc bytes (alloc w 1 bytes);
      Malloc bytes (alloc w 2 bytes); Malloc bytes (alloc w 3 bytes) ].
Proof. unfold complete_events. destruct (small dx dy); reflexivity. Qed.

Lemma complete_events_shape (w w' : world) (dx dy : Z) :
  verdict w = verdict w' ->
  shape <$> complete_events w dx dy = shape <$> complete_events w' dx dy.
Proof.
  intros Hv. unfold complete_events. rewrite Hv.
  destruct (small dx dy); reflexivity.
Qed.

(** A run in which anything but the first clock reading or the usage
    message happens is a complete run. *)
Lemma main_with_event (w : world) (argv : list string) (e : event) :
  e ∈ events (main w argv) -> e <> Clock -> e <> Printf usage ->
  exists dx dy,
    resolve_dims argv start = (start, Next (dx, dy)) /\
    CInt.in_int (dx * dy) = true /\
    main w argv = {| events := complete_events w dx dy; result := Return 0 |}.
Proof.
  intros He Hc Hu.
  destruct (main_cases w argv)
    as [[_ H]|[[_ [u H]]|[(dx & dy & _ & _ & H)|(dx & dy & Hr & Hin & H)]]].
  - rewrite H in He. simpl in He. elem_cases He. done.
  - rewrite H in He. simpl in He. elem_cases He.
  - rewrite H in He. simpl in He. elem_cases He. done.
  - by exists dx, dy.
Qed.

Lemma main_same_dims (w w' : world) argv dx dy :
  resolve_dims argv start = (start, Next (dx, dy)) ->
  CInt.in_int (dx * dy) = true ->
  main w' argv = {| events := complete_events w' dx dy; result := Return 0 |}.
Proof. intros Hr Hin. rewrite (main_resolved w' argv dx dy Hr). by rewrite Hin. Qed.

Lemma mem_here p l : mem p (p :: l) = true.
Proof. unfold mem. simpl. by rewrite Z.eqb_refl. Qed.

Lemma mem_later p q l : mem p l = true -> mem p (q :: l) = true.
Proof. unfold mem. simpl. intros ->. apply orb_true_r. Qed.

Ltac ready_step :=
  cbn [filled_before_read]; apply andb_true_intro; split;
  [ cbn [reads forallb after fills app];
    rewrite ?andb_true_iff; repeat split;
    repeat first [apply mem_here | apply mem_later]
  | cbn [after fills app] ].

Lemma complete_events_filled (w : world) (dx dy : Z) :
  filled_before_read [] (complete_events w dx dy) = true.
Proof.
  unfold complete_events. generalize (CInt.times_sizeof_float (dx * dy)).
  intros bytes. destruct (small dx dy); cbn [app]; repeat ready_step; reflexivity.
Qed.

Lemma times_sizeof_float_plain n :
  0 <= n -> CInt.in_int n = true -> CInt.times_sizeof_float n = 4 * n.
Proof.
  intros Hn Hin. unfold CInt.in_int, CInt.INT_MIN, CInt.INT_MAX in Hin.
  apply andb_true_iff in Hin as [_ Hmax%Z.leb_le].
  unfold CInt.times_sizeof_float, CInt.to_size_t, CInt.SIZE_MODULUS, CInt.SIZEOF_FLOAT.
  rewrite (Z.mod_small n) by lia. rewrite Z.mod_small by lia. lia.
Qed.

(** The checker does reject a read of a buffer nothing has filled. *)
Example read_before_fill_rejected :
  filled_before_read []
    [Malloc 4 4096; Malloc 4 8192; InitializeMatrixSame 4096 1 1 MAT_A_VAL "h_A";
     PrintMatrix 8192 1 1] = false.
Proof. reflexivity. Qed.

(** *** The argument count *)

Lemma dims_from_two_arguments (w : world) prog a b dx dy :
  Libc.atoi a = Some dx -> Libc.atoi b = Some dy ->
  CInt.in_int (dx * dy) = true ->
  main w [prog; a; b]
  = {| events := complete_events w dx dy; result := Return 0 |}.
Proof.
  intros Ha Hb Hin.
  rewrite (main_resolved w _ dx dy) by by apply resolve_two.
  by rewrite Hin.
Qed.

Lemma dims_default (w : world) argv :
  (length argv <= 1)%nat ->
  main w argv
  = {| events := complete_events w DEFAULT_DIM DEFAULT_DIM; result := Return 0 |}.
Proof.
  intros H.
  by rewrite (main_resolved w _ DEFAULT_DIM DEFAULT_DIM) by by apply resolve_defaults.
Qed.

(** C2, at the input where the code departs from it: with exactly one
    positional argument the run is not rejected with the usage message;
    it takes the parsing branch and ends in undefined behaviour ([atoi] of
    the null pointer [argv[2]]) without having printed anything. *)
Theorem one_argument_not_rejected (w : world) :
  main w ["./executable"; "8"]
    = {| events := []; result := Undefined AtoiNull |}
  /\ main w ["./executable"; "8"] <> usage_run.
Proof. split; [reflexivity | discriminate]. Qed.

(** C3: with exactly one positional argument ([argc = 2]) the count check
    takes the parsing branch, [argv[2]] lies outside the argument list, so
    [atoi(argv[2])] is undefined and no second dimension is obtained: the
    run ends there, before any output, allocation or compute. *)
Theorem one_argument_reads_past_arguments (w : world) (argv : list string) :
  length argv = 2%nat ->
  classify (Z.of_nat (length argv)) = ParseArgs
  /\ argv !! 2%nat = None
  /\ atoi_arg argv 2 start = (start, Halt (Undefined AtoiNull))
  /\ (forall a d, argv !! 1%nat = Some a -> Libc.atoi a = Some d ->
        main w argv = {| events := []; result := Undefined AtoiNull |})
  /\ exists u, main w argv = {| events := []; result := Undefined u |}.
Proof.
  intros Hlen. split; [|split; [|split; [|split]]].
  - apply classify_parse. lia.
  - apply lookup_ge_None_2. lia.
  - rewrite <- Hlen. apply atoi_arg_null.
  - intros a d Ha Hd.
    destruct argv as [|prog [|a' [|b rest]]]; try discriminate Hlen.
    injection Ha as ->. unfold main, main_body. unfold mbind at 1, M_bind.
    by rewrite (resolve_one prog a d start Hd).
  - destruct (main_cases w argv)
      as [[H _]|[[_ H]|[(dx & dy & Hr & _)|(dx & dy & Hr & _)]]];
      [lia | done | |];
      destruct argv as [|prog [|a [|b rest]]]; try discriminate Hlen;
      (destruct (Libc.atoi a) as [d|] eqn:Ha;
       [ rewrite (resolve_one prog a d start Ha) in Hr
       | rewrite resolve_bad_first in Hr by (done || simpl; lia) ]);
      discriminate Hr.
Qed.

Lemma one_argument_reads_past_arguments_witness :
  classify (Z.of_nat (length ["./executable"; "8"])) = ParseArgs
  /\ ["./executable"; "8"] !! 2%nat = None
  /\ atoi_arg ["./executable"; "8"] 2 start = (start, Halt (Undefined AtoiNull))
  /\ (forall a d, ["./executable"; "8"] !! 1%nat = Some a -> Libc.atoi a = Some d ->
        main (roomy true) ["./executable"; "8"]
        = {| events := []; result := Undefined AtoiNull |})
  /\ exists u, main (roomy true) ["./executable"; "8"]
               = {| events := []; result := Undefined u |}.
Proof.
  apply (one_argument_reads_past_arguments (roomy true) ["./executable"; "8"]).
  reflexivity.
Defined.

(** C4: with three or more positional arguments ([argc >= 4]) the run
    prints the usage message and returns -1, a non-zero exit status, and
    its trace holds no allocation and no compute phase. *)
Theorem too_many_arguments_rejected (w : world) (argv : list string) :
  (4 <= length argv)%nat ->
  main w argv = {| events := [Printf usage]; result := Return (-1) |}
  /\ exit_status (-1) <> 0
  /\ Forall (fun e => is_malloc e = false /\ is_compute e = false /\
                      is_routine e = false)
       (events (main w argv)).
Proof.
  intros H. rewrite main_usage by done. split; [done|]. split; [done|].
  by repeat constructor.
Qed.

Lemma too_many_arguments_rejected_witness :
  main (roomy true) ["./executable"; "4"; "4"; "4"]
    = {| events := [Printf usage]; result := Return (-1) |}
  /\ exit_status (-1) <> 0
  /\ Forall (fun e => is_malloc e = false /\ is_compute e = false /\
                      is_routine e = false)
       (events (main (roomy true) ["./executable"; "4"; "4"; "4"])).
Proof.
  apply (too_many_arguments_rejected (roomy true) ["./executable"; "4"; "4"; "4"]).
  simpl. lia.
Defined.

(** *** Allocation *)

(** C5 fails on the code: when the four requests of 6.4 GB each for
    40000 by 40000 matrices fail, the run prints no diagnostic and does not
    abort; the null pointers are handed to the initialisation and to both
    additions, and [main] goes on to return 0. *)
Lemma failed_allocation_goes_unnoticed :
  Malloc 6400000000 NULL
    ∈ events (main exhausted ["./executable"; "40000"; "40000"])
  /\ InitializeMatrixSame NULL 40000 40000 MAT_A_VAL "h_A"
       ∈ events (main exhausted ["./executable"; "40000"; "40000"])
  /\ CpuMatrixAdd NULL NULL NULL 40000 40000
       ∈ events (main exhausted ["./executable"; "40000"; "40000"])
  /\ GpuMatrixAdd NULL NULL NULL 40000 40000
       ∈ events (main exhausted ["./executable"; "40000"; "40000"])
  /\ result (main exhausted ["./executable"; "40000"; "40000"]) = Return 0.
Proof. vm_compute. repeat split; repeat constructor. Qed.

(** C5 as amended: no allocation is retried, and none is checked.  In a
    run where a [malloc] fails, [main] still requests each of the four
    matrices exactly once, hands the null pointer to a routine of [pch.h],
    prints and calls exactly what a run with a working allocator does, and
    returns 0. *)
Theorem allocation_unchecked_not_retried (w : world) (argv : list string) (bytes : Z) :
  Malloc bytes NULL ∈ events (main w argv) ->
  result (main w argv) = Return 0
  /\ length (List.filter is_malloc (events (main w argv))) = 4%nat
  /\ (exists e, e ∈ events (main w argv) /\ is_routine e = true /\ NULL ∈ buffers e)
  /\ shape <$> events (main w argv)
     = shape <$> events (main (roomy (verdict w)) argv).
Proof.
  intros H.
  destruct (main_with_event w argv _ H) as (dx & dy & Hr & Hin & Hm); try done.
  rewrite (main_same_dims w (roomy (verdict w)) argv dx dy Hr Hin).
  rewrite Hm in *. cbn [events result] in *.
  split; [done|]. split; [by rewrite complete_events_mallocs|].
  split; [|by apply complete_events_shape].
  apply complete_events_malloc in H as [-> (k & Hk & Hp)].
  unfold complete_events.
  generalize dependent (CInt.times_sizeof_float (dx * dy)). intros sz Hp.
  destruct k as [|[|[|[|k]]]]; [| | | |lia].
  - exists (InitializeMatrixSame (alloc w 0 sz) dx dy MAT_A_VAL "h_A").
    split; [|split; [done|rewrite <- Hp; by left]].
    destruct (small dx dy); cbn [app]; repeat constructor.
  - exists (InitializeMatrixSame (alloc w 1 sz) dx dy MAT_B_VAL "h_B").
    split; [|split; [done|rewrite <- Hp; by left]].
    destruct (small dx dy); cbn [app]; repeat constructor.
  - exists (GpuMatrixAdd (alloc w 0 sz) (alloc w 1 sz) (alloc w 2 sz) dx dy).
    split; [|split; [done|rewrite <- Hp; cbn [buffers]; by do 2 right; left]].
    destruct (small dx dy); cbn [app]; repeat constructor.
  - exists (CpuMatrixAdd (alloc w 0 sz) (alloc w 1 sz) (alloc w 3 sz) dx dy).
    split; [|split; [done|rewrite <- Hp; cbn [buffers]; by do 2 right; left]].
    destruct (small dx dy); cbn [app]; repeat constructor.
Qed.

Lemma allocation_unchecked_not_retried_witness :
  result (main exhausted ["./executable"; "40000"; "40000"]) = Return 0
  /\ length (List.filter is_malloc (events (main exhausted ["./executable"; "40000"; "40000"])))
     = 4%nat
  /\ (exists e, e ∈ events (main exhausted ["./executable"; "40000"; "40000"])
                /\ is_routine e = true /\ NULL ∈ buffers e)
  /\ shape <$> events (main exhausted ["./executable"; "40000"; "40000"])
     = shape <$> events (main (roomy (verdict exhausted)) ["./executable"; "40000"; "40000"]).
Proof.
  apply (allocation_unchecked_not_retried exhausted ["./executable"; "40000"; "40000"] 6400000000).
  vm_compute. repeat constructor.
Defined.

(** *** Verification and cleanup *)

(** C6: whatever [MatrixVerification] finds, the run completes.  A run in
    which the verification is called has printed its results before the
    call: the three timing lines, each after its phase, and, exactly when
    [dx <= 6] and [dy <= 6], the two result matrices under their headings;
    the call is followed by the release of all four matrices, in the order
    [h_A], [h_B], [h_C], [h_check], and [main] returns 0.  The run is the
    same, event for event, whichever verdict the verification reaches. *)
Theorem verification_outcome_not_fatal
    (w : world) (argv : list string) (a b : ptr) (dx dy : Z) (tol : macro)
    (agree : bool) :
  MatrixVerification a b dx dy tol agree ∈ events (main w argv) ->
  agree = verdict w
  /\ result (main w argv) = Return 0
  /\ (exists pre bytes h_A h_B,
        events (main w argv)
        = pre ++ [MatrixVerification a b dx dy tol agree;
                  Free h_A; Free h_B; Free b; Free a]
        /\ List.filter is_malloc pre
           = [Malloc bytes h_A; Malloc bytes h_B; Malloc bytes b; Malloc bytes a])
  /\ (forall v, result (main {| alloc := alloc w; verdict := v |} argv) = Return 0)
  /\ exists bytes h_A h_B dumps,
       (dx <= 6 /\ dy <= 6 ->
        dumps = [ Printf "
CPU Matrix Addition Results: 
"; PrintMatrix a dx dy;
                  Printf "
GPU Matrix Addition Results: 
"; PrintMatrix b dx dy ])
       /\ (~ (dx <= 6 /\ dy <= 6) -> dumps = [])
       /\ forall w', alloc w' = alloc w ->
            main w' argv
            = {| events :=
                   [ Clock;
                     Malloc bytes h_A; Malloc bytes h_B;
                     Malloc bytes b; Malloc bytes a;
                     InitializeMatrixSame h_A dx dy MAT_A_VAL "h_A";
                     InitializeMatrixSame h_B dx dy MAT_B_VAL "h_B";
                     Clock; Printf "Init took %f seconds. Begin compute.
";
                     Clock; CpuMatrixAdd h_A h_B a dx dy;
                     Clock; Printf "CPU Matrix Addition took %f seconds.
";
                     Clock; GpuMatrixAdd h_A h_B b dx dy;
                     Clock; Printf "GPU Matrix Addition took %f seconds.
" ]
                   ++ dumps
                   ++ [ MatrixVerification a b dx dy tol (verdict w');
                        Free h_A; Free h_B; Free b; Free a ];
                 result := Return 0 |}.
Proof.
  intros H.
  destruct (main_with_event w argv _ H) as (x & y & Hr & Hin & Hm); try done.
  split; [|split; [|split; [|split]]].
  - rewrite Hm in H. apply complete_events_verification in H. congruence.
  - by rewrite Hm.
  - rewrite Hm in *. cbn [events] in *.
    apply complete_events_verification in H. injection H as -> -> -> -> -> ->.
    unfold complete_events. generalize (CInt.times_sizeof_float (x * y)).
    intros bytes. rewrite app_assoc.
    eexists _, bytes, _, _. split; [reflexivity|].
    destruct (small x y); reflexivity.
  - intros v. by rewrite (main_same_dims w _ argv x y Hr Hin).
  - rewrite Hm in H. cbn [events] in H.
    apply complete_events_verification in H. injection H as -> -> -> -> -> ->.
    exists (CInt.times_sizeof_float (x * y)),
           (alloc w 0 (CInt.times_sizeof_float (x * y))),
           (alloc w 1 (CInt.times_sizeof_float (x * y))).
    exists (if small x y then
              [ Printf "
CPU Matrix Addition Results: 
"; PrintMatrix (alloc w 3 (CInt.times_sizeof_float (x * y))) x y;
                Printf "
GPU Matrix Addition Results: 
"; PrintMatrix (alloc w 2 (CInt.times_sizeof_float (x * y))) x y ]
            else []).
    split; [|split].
    + intros [Hx Hy]. unfold small.
      destruct (Z.leb_spec x 6), (Z.leb_spec y 6); try lia. reflexivity.
    + intros Hn. unfold small.
      destruct (Z.leb_spec x 6), (Z.leb_spec y 6); try lia; reflexivity.
    + intros w' Hw'. rewrite (main_same_dims w w' argv x y Hr Hin).
      unfold complete_events. by rewrite Hw'.
Qed.

Lemma verification_outcome_not_fatal_witness :
  false = verdict (roomy false)
  /\ result (main (roomy false) ["./executable"; "4"; "4"]) = Return 0
  /\ (exists pre bytes h_A h_B,
        events (main (roomy false) ["./executable"; "4"; "4"])
        = pre ++ [MatrixVerification 16384 12288 4 4 VERIF_TOL false;
                  Free h_A; Free h_B; Free 12288; Free 16384]
        /\ List.filter is_malloc pre
           = [Malloc bytes h_A; Malloc bytes h_B; Malloc bytes 12288; Malloc bytes 16384])
  /\ (forall v, result (main {| alloc := alloc (roomy false); verdict := v |} ["./executable"; "4"; "4"]) = Return 0)
  /\ exists bytes h_A h_B dumps,
       (4 <= 6 /\ 4 <= 6 ->
        dumps = [ Printf "
CPU Matrix Addition Results: 
"; PrintMatrix 16384 4 4;
                  Printf "
GPU Matrix Addition Results: 
"; PrintMatrix 12288 4 4 ])
       /\ (~ (4 <= 6 /\ 4 <= 6) -> dumps = [])
       /\ forall w', alloc w' = alloc (roomy false) ->
            main w' ["./executable"; "4"; "4"]
            = {| events :=
                   [ Clock;
                     Malloc bytes h_A; Malloc bytes h_B;
                     Malloc bytes 12288; Malloc bytes 16384;
                     InitializeMatrixSame h_A 4 4 MAT_A_VAL "h_A";
                     InitializeMatrixSame h_B 4 4 MAT_B_VAL "h_B";
                     Clock; Printf "Init took %f seconds. Begin compute.
";
                     Clock; CpuMatrixAdd h_A h_B 16384 4 4;
                     Clock; Printf "CPU Matrix Addition took %f seconds.
";
                     Clock; GpuMatrixAdd h_A h_B 12288 4 4;
                     Clock; Printf "GPU Matrix Addition took %f seconds.
" ]
                   ++ dumps
                   ++ [ MatrixVerification 16384 12288 4 4 VERIF_TOL (verdict w');
                        Free h_A; Free h_B; Free 12288; Free 16384 ];
                 result := Return 0 |}.
Proof.
  apply (verification_outcome_not_fatal (roomy false) ["./executable"; "4"; "4"]).
  vm_compute. repeat constructor.
Defined.

(** *** Dimensions and the order of the phases *)

(** C7 fails on the code: the dimensions are not checked.  With arguments
    [0] and [5] the run reaches both compute phases with [dx = 0], and
    returns 0. *)
Lemma compute_reached_with_zero_dimension :
  CpuMatrixAdd 4096 8192 16384 0 5
    ∈ events (main (roomy true) ["./executable"; "0"; "5"])
  /\ GpuMatrixAdd 4096 8192 12288 0 5
    ∈ events (main (roomy true) ["./executable"; "0"; "5"])
  /\ result (main (roomy true) ["./executable"; "0"; "5"]) = Return 0
  /\ ~ (0 < 0).
Proof. vm_compute. repeat split; try discriminate; repeat constructor. Qed.

(** C7 as amended: on every run that reaches a compute phase, with
    whatever dimensions [dx], [dy] were resolved (their sign is not
    checked), the four matrices have been requested before the first
    compute phase, all with the same size [dx*dy*sizeof(float)], nothing is
    allocated later, and no routine reads a buffer before a routine has
    filled it. *)
Theorem matrices_ready_before_compute
    (w : world) (argv : list string) (e : event) :
  e ∈ events (main w argv) -> is_compute e = true ->
  exists dx dy bytes h_A h_B h_C h_check,
    (e = CpuMatrixAdd h_A h_B h_check dx dy \/ e = GpuMatrixAdd h_A h_B h_C dx dy)
    /\ bytes = CInt.times_sizeof_float (dx * dy)
    /\ (0 <= dx * dy -> bytes = 4 * (dx * dy))
    /\ List.filter is_malloc (before_compute (events (main w argv)))
       = [Malloc bytes h_A; Malloc bytes h_B; Malloc bytes h_C; Malloc bytes h_check]
    /\ List.filter is_malloc (events (main w argv))
       = [Malloc bytes h_A; Malloc bytes h_B; Malloc bytes h_C; Malloc bytes h_check]
    /\ filled_before_read [] (events (main w argv)) = true.
Proof.
  intros He Hc.
  destruct (main_with_event w argv _ He) as (dx & dy & Hr & Hin & Hm);
    [by destruct e | by destruct e |].
  rewrite Hm in *. cbn [events] in *.
  exists dx, dy, (CInt.times_sizeof_float (dx * dy)).
  exists (alloc w 0 (CInt.times_sizeof_float (dx * dy))),
         (alloc w 1 (CInt.times_sizeof_float (dx * dy))),
         (alloc w 2 (CInt.times_sizeof_float (dx * dy))),
         (alloc w 3 (CInt.times_sizeof_float (dx * dy))).
  split; [|split; [done|split; [|split; [|split]]]].
  - destruct e; try discriminate Hc.
    + left. by apply complete_events_cpu.
    + right. by apply complete_events_gpu.
  - intros Hpos. by apply times_sizeof_float_plain.
  - unfold complete_events. generalize (CInt.times_sizeof_float (dx * dy)).
    intros bytes. reflexivity.
  - apply complete_events_mallocs.
  - apply complete_events_filled.
Qed.

Lemma matrices_ready_before_compute_witness :
  exists dx dy bytes h_A h_B h_C h_check,
    (CpuMatrixAdd 4096 8192 16384 0 5 = CpuMatrixAdd h_A h_B h_check dx dy
     \/ CpuMatrixAdd 4096 8192 16384 0 5 = GpuMatrixAdd h_A h_B h_C dx dy)
    /\ bytes = CInt.times_sizeof_float (dx * dy)
    /\ (0 <= dx * dy -> bytes = 4 * (dx * dy))
    /\ List.filter is_malloc
         (before_compute (events (main (roomy true) ["./executable"; "0"; "5"])))
       = [Malloc bytes h_A; Malloc bytes h_B; Malloc bytes h_C; Malloc bytes h_check]
    /\ List.filter is_malloc (events (main (roomy true) ["./executable"; "0"; "5"]))
       = [Malloc bytes h_A; Malloc bytes h_B; Malloc bytes h_C; Malloc bytes h_check]
    /\ filled_before_read [] (events (main (roomy true) ["./executable"; "0"; "5"]))
       = true.
Proof.
  apply (matrices_ready_before_compute (roomy true) ["./executable"; "0"; "5"]
           (CpuMatrixAdd 4096 8192 16384 0 5)).
  - vm_compute. repeat constructor.
  - reflexivity.
Defined.

(** *** The debug printout *)

(** C9: a run that gets past the accelerator addition prints the two
    result matrices, the host reference and then the accelerator result,
    exactly when [dx <= 6] and [dy <= 6]; otherwise it prints no matrix. *)
Theorem dumps_iff_small
    (w : world) (argv : list string) (a b c : ptr) (dx dy : Z) :
  GpuMatrixAdd a b c dx dy ∈ events (main w argv) ->
  exists h_check,
    CpuMatrixAdd a b h_check dx dy ∈ events (main w argv)
    /\ (dx <= 6 /\ dy <= 6 ->
        List.filter is_dump (events (main w argv))
        = [PrintMatrix h_check dx dy; PrintMatrix c dx dy])
    /\ (~ (dx <= 6 /\ dy <= 6) ->
        List.filter is_dump (events (main w argv)) = []).
Proof.
  intros H.
  destruct (main_with_event w argv _ H) as (x & y & Hr & Hin & Hm); try done.
  rewrite Hm in *. cbn [events] in *.
  apply complete_events_gpu in H. injection H as -> -> -> -> ->.
  exists (alloc w 3 (CInt.times_sizeof_float (x * y))).
  unfold complete_events. generalize (CInt.times_sizeof_float (x * y)).
  intros bytes. unfold small.
  destruct (Z.leb_spec x 6), (Z.leb_spec y 6); cbn [andb app];
    (split; [repeat constructor|]); split; intros ?; try lia; reflexivity.
Qed.

Lemma dumps_iff_small_witness :
  exists h_check,
    CpuMatrixAdd 4096 8192 h_check 4 4
      ∈ events (main (roomy true) ["./executable"; "4"; "4"])
    /\ (4 <= 6 /\ 4 <= 6 ->
        List.filter is_dump (events (main (roomy true) ["./executable"; "4"; "4"]))
        = [PrintMatrix h_check 4 4; PrintMatrix 12288 4 4])
    /\ (~ (4 <= 6 /\ 4 <= 6) ->
        List.filter is_dump (events (main (roomy true) ["./executable"; "4"; "4"]))
        = []).
Proof.
  apply (dumps_iff_small (roomy true) ["./executable"; "4"; "4"]).
  vm_compute. repeat constructor.
Defined.
End HarnessFacts.

Module KernelFacts.
Import Kernels.

(** *** Loops *)

Lemma for_each_app {I S} (l1 l2 : list I) (f : I -> S -> option S) s :
  for_each (l1 ++ l2) f s = for_each l1 f s ≫= for_each l2 f.
Proof.
  revert s. induction l1 as [|i l1 IH]; intros s; simpl; [done|].
  destruct (f i s) as [s'|]; simpl; [apply IH | done].
Qed.

Lemma for_each_ext {I S} (l : list I) (f g : I -> S -> option S) s :
  (forall i s, i ∈ l -> f i s = g i s) -> for_each l f s = for_each l g s.
Proof.
  revert s. induction l as [|i l IH]; intros s H; simpl; [done|].
  rewrite (H i s) by left.
  destruct (g i s) as [s'|]; simpl; [|done].
  apply IH. intros j t Hj. apply H. by right.
Qed.

Lemma for_each_omap {I J S} (g : I -> option J) (l : list I)
    (f : J -> S -> option S) s :
  for_each l (fun t s => match g t with Some i => f i s | None => Some s end) s
  = for_each (omap g l) f s.
Proof.
  revert s. induction l as [|t l IH]; intros s; simpl; [done|].
  destruct (g t) as [i|]; simpl; [|apply IH].
  destruct (f i s) as [s'|]; simpl; [apply IH | done].
Qed.

Lemma for_each_inner {S} (cols : list nat) (g : nat -> nat)
    (f : nat -> S -> option S) s :
  for_each cols (fun col s => f (g col) s) s
  = for_each (col ← cols; [g col]) f s.
Proof.
  revert s. induction cols as [|c cols IH]; intros s; simpl; [done|].
  destruct (f (g c) s) as [s'|]; simpl; [apply IH | done].
Qed.

Lemma for_each_nested {S} (rows cols : list nat) (g : nat -> nat -> nat)
    (f : nat -> S -> option S) s :
  for_each rows (fun row s => for_each cols (fun col s => f (g row col) s) s) s
  = for_each (row ← rows; col ← cols; [g row col]) f s.
Proof.
  revert s. induction rows as [|r rows IH]; intros s; simpl; [done|].
  rewrite for_each_app, <- for_each_inner.
  destruct (for_each cols _ s) as [s'|]; simpl; [apply IH | done].
Qed.

(** *** Positions *)

Lemma elem_of_row_major nx ny j : j ∈ row_major nx ny <-> j < nx * ny.
Proof.
  unfold row_major. rewrite list_elem_of_bind. split.
  - intros (r & Hj & Hr). apply list_elem_of_bind in Hj as (c & Hj & Hc).
    apply list_elem_of_singleton in Hj.
    apply elem_of_seq in Hr, Hc. nia.
  - intros Hj. assert (nx <> 0) as Hnx by nia.
    pose proof (Nat.div_mod_eq j nx) as Hdm.
    pose proof (Nat.mod_upper_bound j nx Hnx) as Hm.
    exists (j / nx). split.
    + apply list_elem_of_bind. exists (j mod nx). split.
      * apply list_elem_of_singleton. lia.
      * apply elem_of_seq. lia.
    + apply elem_of_seq. split; [lia|]. simpl.
      apply Nat.Div0.div_lt_upper_bound. lia.
Qed.

Lemma cells_mul dx dy :
  (0 <= dx)%Z -> (0 <= dy)%Z -> cells dx dy = Z.to_nat dx * Z.to_nat dy.
Proof. intros. unfold cells. by rewrite Z2Nat.inj_mul. Qed.

(** *** Writing a buffer cell by cell *)

Lemma put_Some (v : nat -> option float) i r (m : buffer) :
  v i = Some r -> i < length m -> put v i m = Some (<[i := Some r]> m).
Proof.
  intros Hv Hi. unfold put, store. rewrite Hv. simpl.
  by rewrite decide_True.
Qed.

Lemma for_each_put (v : nat -> option float) (todo : list nat) (m : buffer) :
  (forall i, i ∈ todo -> i < length m /\ is_Some (v i)) ->
  exists m', for_each todo (put v) m = Some m'
    /\ length m' = length m
    /\ forall j, m' !! j = if decide (j ∈ todo) then Some (v j) else m !! j.
Proof.
  revert m. induction todo as [|a todo IH]; intros m H.
  - exists m. split; [done|]. split; [done|]. intros j.
    rewrite decide_False; [done | apply not_elem_of_nil].
  - destruct (H a) as [Hlt Hr]; [left|].
    destruct (v a) as [r|] eqn:Hva; [clear Hr | by destruct Hr].
    destruct (IH (<[a := Some r]> m)) as (m' & E & L & Hm').
    { intros i Hi. rewrite length_insert. apply H. by right. }
    exists m'. split; [|split].
    + cbn [for_each]. by rewrite (put_Some v a r m).
    + by rewrite L, length_insert.
    + intros j. rewrite Hm'.
      destruct (decide (j ∈ todo)) as [Hin|Hnin].
      * rewrite decide_True; [done | by right].
      * destruct (decide (j = a)) as [->|Hne].
        -- rewrite decide_True by left.
           rewrite list_lookup_insert_eq by done. by rewrite Hva.
        -- rewrite decide_False.
           ++ by rewrite list_lookup_insert_ne.
           ++ intros Hj. apply elem_of_cons in Hj as [?|?]; done.
Qed.

(** A loop that visits exactly the positions below [length m] leaves the
    buffer tabulated, whatever the order and however often it visits. *)
Lemma for_each_put_all (v : nat -> option float) (todo : list nat) (m : buffer) :
  (forall j, j ∈ todo <-> j < length m) ->
  (forall j, j < length m -> is_Some (v j)) ->
  for_each todo (put v) m = Some (tabulate v (length m)).
Proof.
  intros Hcover Hv.
  destruct (for_each_put v todo m) as (m' & E & L & Hm').
  { intros i Hi. apply Hcover in Hi. auto. }
  rewrite E. f_equal. apply list_eq. intros j. rewrite Hm'.
  unfold tabulate. rewrite list_lookup_fmap.
  destruct (decide (j < length m)) as [Hlt|Hge].
  - rewrite decide_True by by apply Hcover.
    by rewrite lookup_seq_lt.
  - rewrite decide_False by (intros Hj; by apply Hcover in Hj).
    rewrite lookup_seq_ge by lia. simpl. apply lookup_ge_None. lia.
Qed.
Lemma tabulate_length (v : nat -> cell) n : length (tabulate v n) = n.
Proof. unfold tabulate. by rewrite length_fmap, length_seq. Qed.

Lemma tabulate_lookup (v : nat -> cell) n j :
  j < n -> tabulate v n !! j = Some (v j).
Proof.
  intros Hj. unfold tabulate. by rewrite list_lookup_fmap, lookup_seq_lt.
Qed.

Lemma tabulate_load (v : nat -> cell) n j : j < n -> load (tabulate v n) j = v j.
Proof. intros Hj. unfold load. by rewrite tabulate_lookup. Qed.



Lemma tabulate_initialised (v : nat -> cell) n :
  (forall j, j < n -> is_Some (v j)) -> initialised (tabulate v n).
Proof.
  intros H. apply Forall_lookup. intros j c Hc.
  assert (j < n) as Hj.
  { apply lookup_lt_Some in Hc. by rewrite tabulate_length in Hc. }
  rewrite tabulate_lookup in Hc by done. injection Hc as <-. by apply H.
Qed.

Lemma initialised_load (m : buffer) j :
  initialised m -> j < length m -> is_Some (load m j).
Proof.
  intros Hm Hj. destruct (lookup_lt_is_Some_2 m j Hj) as [c Hc].
  unfold load. rewrite Hc. simpl.
  eapply (proj1 (Forall_lookup _ _)); eauto.
Qed.

(** *** MatrixInit *)

Lemma init_tabulate (m : buffer) dx dy val name :
  length m = Z.to_nat dx * Z.to_nat dy ->
  InitializeMatrixSame m dx dy val name
  = Some (tabulate (fun _ => Some val) (length m)).
Proof.
  intros Hm. unfold InitializeMatrixSame.
  rewrite (for_each_nested _ _ (at_ dx) (fun i m => store m i val)).
  change (for_each (row_major (Z.to_nat dx) (Z.to_nat dy))
            (put (fun _ => Some val)) m = Some (tabulate (fun _ => Some val) (length m))).
  apply for_each_put_all; [|by eauto].
  intros j. rewrite Hm. apply elem_of_row_major.
Qed.

(** *** HostAdd *)

Lemma add_cell_put A B i C : add_cell A B i C = put (sum_at A B) i C.
Proof.
  unfold add_cell, put, sum_at.
  destruct (load A i), (load B i); reflexivity.
Qed.

Lemma cpu_tabulate (A B C : buffer) dx dy :
  length C = Z.to_nat dx * Z.to_nat dy ->
  (forall j, j < length C -> is_Some (sum_at A B j)) ->
  cpu_matrix_add A B C dx dy = Some (tabulate (sum_at A B) (length C)).
Proof.
  intros HC Hsum. unfold cpu_matrix_add.
  rewrite (for_each_nested _ _ (at_ dx) (add_cell A B)).
  erewrite for_each_ext by (intros; apply add_cell_put).
  apply for_each_put_all; [|done].
  intros j. rewrite HC. apply elem_of_row_major.
Qed.

Lemma sum_at_is_Some (A B : buffer) j :
  initialised A -> initialised B -> j < length A -> j < length B ->
  is_Some (sum_at A B j).
Proof.
  intros HA HB Hja Hjb. unfold sum_at.
  destruct (initialised_load A j HA Hja) as [a ->].
  destruct (initialised_load B j HB Hjb) as [b ->].
  by eexists.
Qed.
(** *** DeviceAdd *)

Lemma ceil_div_lt a n b : 0 < b -> a < n -> a / b < ceil_div n b.
Proof.
  intros Hb Han. unfold ceil_div.
  replace (n + b - 1) with ((n - 1) + 1 * b) by lia.
  rewrite Nat.div_add by lia.
  pose proof (Nat.Div0.div_le_mono a (n - 1) b). lia.
Qed.

Lemma elem_of_threads g b t :
  t ∈ threads g b <->
  x (blockIdx t) < x g /\ y (blockIdx t) < y g /\
  x (threadIdx t) < x b /\ y (threadIdx t) < y b.
Proof.
  unfold threads. split.
  - intros H.
    apply list_elem_of_bind in H as (by_ & H & Hby%elem_of_seq).
    apply list_elem_of_bind in H as (bx & H & Hbx%elem_of_seq).
    apply list_elem_of_bind in H as (ty & H & Hty%elem_of_seq).
    apply list_elem_of_bind in H as (tx & H & Htx%elem_of_seq).
    apply list_elem_of_singleton in H as ->. simpl. lia.
  - destruct t as [[bx by_] [tx ty]]. simpl. intros (Hbx & Hby & Htx & Hty).
    apply list_elem_of_bind. exists by_. split; [|apply elem_of_seq; lia].
    apply list_elem_of_bind. exists bx. split; [|apply elem_of_seq; lia].
    apply list_elem_of_bind. exists ty. split; [|apply elem_of_seq; lia].
    apply list_elem_of_bind. exists tx. split; [|apply elem_of_seq; lia].
    by apply list_elem_of_singleton.
Qed.

(** The unit in charge of cell [(row, col)]. *)
Lemma cell_of_owner bs dx dy row col :
  0 < bs -> col < Z.to_nat dx -> row < Z.to_nat dy ->
  cell_of bs dx dy
    {| blockIdx := {| x := col / bs; y := row / bs |};
       threadIdx := {| x := col mod bs; y := row mod bs |} |}
  = Some (at_ dx row col).
Proof.
  intros Hbs Hcol Hrow. unfold cell_of. simpl.
  pose proof (Nat.div_mod_eq col bs). pose proof (Nat.div_mod_eq row bs).
  replace (col / bs * bs + col mod bs) with col by lia.
  replace (row / bs * bs + row mod bs) with row by lia.
  by rewrite decide_True.
Qed.

(** The units that pass the boundary check are in charge of exactly the
    cells of the matrix. *)
Lemma elem_of_launch_cells bs dx dy j :
  0 < bs ->
  j ∈ omap (cell_of bs dx dy) (threads (grid bs dx dy) (block bs))
  <-> j < Z.to_nat dx * Z.to_nat dy.
Proof.
  intros Hbs. rewrite list_elem_of_omap. split.
  - intros (t & _ & Hc). unfold cell_of in Hc.
    case_decide as Hin; [|done]. injection Hc as <-. unfold at_. nia.
  - intros Hj. set (nx := Z.to_nat dx) in *. set (ny := Z.to_nat dy) in *.
    assert (nx <> 0) as Hnx by nia.
    pose proof (Nat.div_mod_eq j nx) as Hdm.
    pose proof (Nat.mod_upper_bound j nx Hnx) as Hcol.
    assert (j / nx < ny) as Hrow by (apply Nat.Div0.div_lt_upper_bound; lia).
    exists {| blockIdx := {| x := (j mod nx) / bs; y := (j / nx) / bs |};
              threadIdx := {| x := (j mod nx) mod bs; y := (j / nx) mod bs |} |}.
    split.
    + apply elem_of_threads. simpl. repeat split.
      * by apply ceil_div_lt.
      * by apply ceil_div_lt.
      * apply Nat.mod_upper_bound. lia.
      * apply Nat.mod_upper_bound. lia.
    + rewrite cell_of_owner by done. f_equal. unfold at_. fold nx. lia.
Qed.


Lemma fresh_length n : length (fresh n) = n.
Proof. apply length_replicate. Qed.

(** Any schedule that runs the units in charge of exactly the cells of
    the matrix leaves the device buffer tabulated with the sums. *)
Lemma launch_tabulate bs (schedule : list thread) (d_A d_B d_C : buffer) dx dy :
  (forall j, j ∈ omap (cell_of bs dx dy) schedule <-> j < length d_C) ->
  (forall j, j < length d_C -> is_Some (sum_at d_A d_B j)) ->
  launch schedule (matrix_add_kernel bs d_A d_B dx dy) d_C
  = Some (tabulate (sum_at d_A d_B) (length d_C)).
Proof.
  intros Hcover Hsum. unfold launch, matrix_add_kernel.
  rewrite (for_each_omap (cell_of bs dx dy) schedule (add_cell d_A d_B)).
  erewrite for_each_ext by (intros; apply add_cell_put).
  by apply for_each_put_all.
Qed.

(** Each cell of the matrix is in the charge of exactly one unit of the
    launch. *)
Lemma cell_has_one_unit bs dx dy j :
  0 < bs -> j < Z.to_nat dx * Z.to_nat dy ->
  exists t,
    t ∈ threads (grid bs dx dy) (block bs) /\ cell_of bs dx dy t = Some j /\
    forall t', t' ∈ threads (grid bs dx dy) (block bs) ->
               cell_of bs dx dy t' = Some j -> t' = t.
Proof.
  intros Hbs Hj. set (nx := Z.to_nat dx) in *. set (ny := Z.to_nat dy) in *.
  assert (nx <> 0) as Hnx by nia.
  pose proof (Nat.div_mod_eq j nx) as Hdm.
  pose proof (Nat.mod_upper_bound j nx Hnx) as Hcol.
  assert (j / nx < ny) as Hrow by (apply Nat.Div0.div_lt_upper_bound; lia).
  exists {| blockIdx := {| x := (j mod nx) / bs; y := (j / nx) / bs |};
            threadIdx := {| x := (j mod nx) mod bs; y := (j / nx) mod bs |} |}.
  split; [|split].
  - apply elem_of_threads. simpl. repeat split;
      first [by apply ceil_div_lt | apply Nat.mod_upper_bound; lia].
  - rewrite cell_of_owner by done. f_equal. unfold at_. fold nx. lia.
  - intros [[bx by_] [tx ty]] Ht Hc.
    apply elem_of_threads in Ht as (_ & _ & Htx & Hty). simpl in Htx, Hty.
    unfold cell_of in Hc. simpl in Hc. case_decide as Hin; [|done].
    injection Hc as Hc. unfold at_ in Hc. fold nx ny in Hin, Hc.
    destruct Hin as [Hc1 Hr1].
    assert (by_ * bs + ty = j / nx) as Er
      by (apply (Nat.div_unique j nx _ (bx * bs + tx)); lia).
    assert (bx * bs + tx = j mod nx) as Ec
      by (apply (Nat.mod_unique j nx (by_ * bs + ty)); lia).
    rewrite <- Er, <- Ec.
    rewrite (Nat.div_unique (bx * bs + tx) bs bx tx) at 1 by lia.
    rewrite (Nat.mod_unique (bx * bs + tx) bs bx tx) at 2 by lia.
    rewrite (Nat.div_unique (by_ * bs + ty) bs by_ ty) at 1 by lia.
    rewrite (Nat.mod_unique (by_ * bs + ty) bs by_ ty) at 2 by lia.
    reflexivity.
Qed.

(** The order in which the units of a launch run does not matter. *)
Lemma launch_any_order bs (schedule : list thread) (d_A d_B d_C : buffer) dx dy :
  0 < bs ->
  schedule ≡ₚ threads (grid bs dx dy) (block bs) ->
  length d_C = Z.to_nat dx * Z.to_nat dy ->
  (forall j, j < length d_C -> is_Some (sum_at d_A d_B j)) ->
  launch schedule (matrix_add_kernel bs d_A d_B dx dy) d_C
  = launch (threads (grid bs dx dy) (block bs))
      (matrix_add_kernel bs d_A d_B dx dy) d_C.
Proof.
  intros Hbs Hperm HC Hsum.
  rewrite !launch_tabulate; try done.
  - intros j. rewrite HC. by apply elem_of_launch_cells.
  - intros j. rewrite HC, <- (elem_of_launch_cells bs dx dy j Hbs).
    rewrite !list_elem_of_omap.
    split; intros (t & Ht & Hc); exists t; (split; [|done]).
    + by rewrite <- Hperm.
    + by rewrite Hperm.
Qed.

(** *** binary32 arithmetic *)

Lemma fadd_comm a b : fadd a b = fadd b a.
Proof.
  unfold fadd.
  destruct a as [sa|sa| |sa ma ea], b as [sb|sb| |sb mb eb];
    try reflexivity; try (destruct sa, sb; reflexivity).
  unfold SFadd. rewrite (Z.min_comm ea eb). f_equal. apply Z.add_comm.
Qed.



Lemma add_cell_comm A B i C : add_cell A B i C = add_cell B A i C.
Proof.
  unfold add_cell. destruct (load A i) as [a|], (load B i) as [b|]; simpl; try done.
  by rewrite fadd_comm.
Qed.

Lemma cpu_matrix_add_swap (A B C : buffer) dx dy :
  cpu_matrix_add A B C dx dy = cpu_matrix_add B A C dx dy.
Proof.
  unfold cpu_matrix_add. apply for_each_ext. intros row C1 _.
  apply for_each_ext. intros col C2 _. apply add_cell_comm.
Qed.

(** *** Verify *)

(** *** The routines together *)

Lemma sum_at_const a b n j :
  j < n ->
  sum_at (tabulate (fun _ => Some a) n) (tabulate (fun _ => Some b) n) j
  = Some (fadd a b).
Proof. intros Hj. unfold sum_at. by rewrite !tabulate_load. Qed.

Lemma cpu_total (A B C : buffer) dx dy :
  (0 <= dx)%Z -> (0 <= dy)%Z ->
  length A = cells dx dy -> length B = cells dx dy -> length C = cells dx dy ->
  initialised A -> initialised B ->
  cpu_matrix_add A B C dx dy = Some (tabulate (sum_at A B) (cells dx dy)).
Proof.
  intros Hdx Hdy HA HB HC IA IB.
  rewrite <- HC. apply cpu_tabulate.
  - by rewrite HC, cells_mul.
  - intros j Hj. apply sum_at_is_Some; try done; lia.
Qed.


(** C8: for all dimensions [dx, dy > 0] and all fill values [a], [b], once
    [A] has been filled with [a] and [B] with [b], the host addition
    succeeds and every one of the [dx*dy] cells of its output holds
    [a + b]. *)
Theorem host_add_constant_fill (dx dy : Z) (a b : float) (out : buffer) :
  (0 < dx)%Z -> (0 < dy)%Z -> length out = cells dx dy ->
  exists h_A h_B h_check : buffer,
    InitializeMatrixSame (fresh (cells dx dy)) dx dy a "h_A" = Some h_A /\
    InitializeMatrixSame (fresh (cells dx dy)) dx dy b "h_B" = Some h_B /\
    cpu_matrix_add h_A h_B out dx dy = Some h_check /\
    length h_check = cells dx dy /\
    forall i, i < cells dx dy -> h_check !! i = Some (Some (fadd a b)).
Proof.
  intros Hdx Hdy Hout. set (n := cells dx dy) in *.
  assert (n = Z.to_nat dx * Z.to_nat dy) as Hn by (apply cells_mul; lia).
  exists (tabulate (fun _ => Some a) n), (tabulate (fun _ => Some b) n).
  exists (tabulate (sum_at (tabulate (fun _ => Some a) n)
                           (tabulate (fun _ => Some b) n)) n).
  split; [|split; [|split; [|split]]].
  - rewrite init_tabulate; rewrite fresh_length; done.
  - rewrite init_tabulate; rewrite fresh_length; done.
  - apply cpu_total; rewrite ?tabulate_length; try done; try lia;
      apply tabulate_initialised; eauto.
  - apply tabulate_length.
  - intros i Hi. rewrite tabulate_lookup by done. by rewrite sum_at_const.
Qed.

Lemma host_add_constant_fill_witness :
  exists h_A h_B h_check : buffer,
    InitializeMatrixSame (fresh (cells 4 4)) 4 4
      (value_of Harness.MAT_A_VAL) "h_A" = Some h_A /\
    InitializeMatrixSame (fresh (cells 4 4)) 4 4
      (value_of Harness.MAT_B_VAL) "h_B" = Some h_B /\
    cpu_matrix_add h_A h_B (fresh 16) 4 4 = Some h_check /\
    length h_check = cells 4 4 /\
    forall i, i < cells 4 4 ->
      h_check !! i
      = Some (Some (fadd (value_of Harness.MAT_A_VAL) (value_of Harness.MAT_B_VAL))).
Proof.
  apply (host_add_constant_fill 4 4 _ _ (fresh 16)); [lia | lia | reflexivity].
Defined.

(** C10: the host addition is commutative in its two inputs: for
    equally-dimensioned, initialised matrices [A] and [B], both
    [cpu_matrix_add A B] and [cpu_matrix_add B A] succeed and produce the
    same [dx*dy] cells. *)
Theorem host_add_commutative (A B C : buffer) (dx dy : Z) :
  (0 < dx)%Z -> (0 < dy)%Z ->
  length A = cells dx dy -> length B = cells dx dy -> length C = cells dx dy ->
  initialised A -> initialised B ->
  exists M : buffer,
    cpu_matrix_add A B C dx dy = Some M /\
    cpu_matrix_add B A C dx dy = Some M /\
    length M = cells dx dy.
Proof.
  intros Hdx Hdy HA HB HC IA IB.
  exists (tabulate (sum_at A B) (cells dx dy)).
  assert (cpu_matrix_add A B C dx dy
          = Some (tabulate (sum_at A B) (cells dx dy))) as E
    by (apply cpu_total; try done; lia).
  split; [done|]. split; [|apply tabulate_length].
  by rewrite <- cpu_matrix_add_swap.
Qed.

Lemma host_add_commutative_witness :
  exists M : buffer,
    cpu_matrix_add
      [Some (value_of Harness.MAT_A_VAL); Some (S754_zero true)]
      [Some (value_of Harness.MAT_B_VAL); Some (S754_infinity false)]
      (fresh 2) 2 1 = Some M /\
    cpu_matrix_add
      [Some (value_of Harness.MAT_B_VAL); Some (S754_infinity false)]
      [Some (value_of Harness.MAT_A_VAL); Some (S754_zero true)]
      (fresh 2) 2 1 = Some M /\
    length M = cells 2 1.
Proof.
  apply host_add_commutative;
    [lia | lia | reflexivity | reflexivity | reflexivity | |];
    repeat constructor; by eexists.
Defined.




End KernelFacts.

(* ===================================================================== *)
(** ** Further properties of main *)
(* ===================================================================== *)

Module CoverageFacts.
Import Harness Coverage HarnessFacts.
Local Open Scope Z_scope.

Lemma main_of_resolve (w : world) (argv argv' : list string) :
  resolve_dims argv start = resolve_dims argv' start ->
  main w argv = main w argv'.
Proof.
  intros H. unfold main, main_body, mbind, M_bind. by rewrite H.
Qed.

Lemma usage_not_in_complete (w : world) (dx dy : Z) :
  Printf usage ∉ complete_events w dx dy.
Proof.
  unfold complete_events, usage. generalize (CInt.times_sizeof_float (dx * dy)).
  intros bytes. destruct (small dx dy); cbn [app]; intros H; elem_cases H.
Qed.

(** X1: the usage message is printed, and -1 returned, exactly when there
    are three or more positional arguments ([argc >= 4]). *)
Theorem usage_exactly_when_too_many (w : world) (argv : list string) :
  ((4 <= length argv)%nat <-> result (main w argv) = Return (-1))
  /\ ((4 <= length argv)%nat <-> Printf usage ∈ events (main w argv)).
Proof.
  destruct (main_cases w argv)
    as [[Hl H]|[[Hl [u H]]|[(dx & dy & Hr & _ & H)|(dx & dy & Hr & _ & H)]]];
    rewrite H; cbn [events result usage_run].
  - split; split; intros _; first [done | by left].
  - split; split; intros Hin; first [lia | done | by apply elem_of_nil in Hin].
  - assert (~ (4 <= length argv)%nat) as Hn.
    { intros Hl. rewrite resolve_usage in Hr by done. discriminate Hr. }
    split; split; intros Hin; try done. elem_cases Hin.
  - assert (~ (4 <= length argv)%nat) as Hn.
    { intros Hl. rewrite resolve_usage in Hr by done. discriminate Hr. }
    split; split; intros Hin; try done. by apply usage_not_in_complete in Hin.
Qed.

(** X2: without positional arguments ([argc <= 1], the empty [argv]
    included) the run never goes wrong: it goes through all phases with the
    default 1024 by 1024, asks four times for 4194304 bytes, prints no
    matrix and returns 0. *)
Theorem default_run (w : world) (argv : list string) :
  (length argv <= 1)%nat ->
  main w argv
    = {| events := complete_events w DEFAULT_DIM DEFAULT_DIM; result := Return 0 |}
  /\ (exists h_A h_B h_C h_check,
        List.filter is_malloc (events (main w argv))
        = [Malloc 4194304 h_A; Malloc 4194304 h_B;
           Malloc 4194304 h_C; Malloc 4194304 h_check])
  /\ List.filter is_dump (events (main w argv)) = [].
Proof.
  intros H.
  rewrite (main_resolved w argv DEFAULT_DIM DEFAULT_DIM)
    by by apply resolve_defaults.
  change (CInt.in_int (DEFAULT_DIM * DEFAULT_DIM)) with true. cbn [events].
  split; [done|]. split; [|reflexivity].
  rewrite complete_events_mallocs. by eexists _, _, _, _.
Qed.

Lemma default_run_witness :
  main (roomy true) ["./executable"]
    = {| events := complete_events (roomy true) DEFAULT_DIM DEFAULT_DIM;
         result := Return 0 |}
  /\ (exists h_A h_B h_C h_check,
        List.filter is_malloc (events (main (roomy true) ["./executable"]))
        = [Malloc 4194304 h_A; Malloc 4194304 h_B;
           Malloc 4194304 h_C; Malloc 4194304 h_check])
  /\ List.filter is_dump (events (main (roomy true) ["./executable"])) = [].
Proof. apply (default_run (roomy true) ["./executable"]). simpl. lia. Defined.

(** X3: with exactly two positional arguments the dimensions are what
    [atoi] makes of them, first [dx] then [dy]; when their product fits an
    [int] the run goes through all phases with these dimensions and returns
    0. *)
Theorem two_arguments_run (w : world) (prog a b : string) (dx dy : Z) :
  Libc.atoi a = Some dx -> Libc.atoi b = Some dy ->
  CInt.in_int (dx * dy) = true ->
  resolve_dims [prog; a; b] start = (start, Next (dx, dy))
  /\ main w [prog; a; b]
     = {| events := complete_events w dx dy; result := Return 0 |}.
Proof.
  intros Ha Hb Hin.
  pose proof (resolve_two prog a b dx dy start Ha Hb) as Hr.
  split; [done|]. rewrite (main_resolved w _ dx dy Hr). by rewrite Hin.
Qed.

Lemma two_arguments_run_witness :
  resolve_dims ["./executable"; "3"; "5"] start = (start, Next (3, 5))
  /\ main (roomy true) ["./executable"; "3"; "5"]
     = {| events := complete_events (roomy true) 3 5; result := Return 0 |}.
Proof.
  apply (two_arguments_run (roomy true) "./executable" "3" "5" 3 5);
    reflexivity.
Defined.

(** X4: the program name is never looked at: two argument vectors that
    differ only in [argv[0]] give the same run. *)
Theorem program_name_ignored (w : world) (prog prog' : string) (args : list string) :
  main w (prog :: args) = main w (prog' :: args).
Proof.
  apply main_of_resolve.
  destruct (le_lt_dec 4 (length (prog :: args))) as [Hl|Hl].
  - rewrite !resolve_usage; done.
  - destruct args as [|a rest].
    + rewrite !resolve_defaults; simpl; done || lia.
    + rewrite !resolve_parse by (simpl in *; lia). reflexivity.
Qed.

(** X5: when the product of the two dimensions does not fit an [int], the
    behaviour is undefined at the first [dx*dy]: the clock has been read
    once, nothing has been allocated, printed or computed. *)
Theorem oversized_product_undefined (w : world) (prog a b : string) (dx dy : Z) :
  Libc.atoi a = Some dx -> Libc.atoi b = Some dy ->
  CInt.in_int (dx * dy) = false ->
  main w [prog; a; b] = {| events := [Clock]; result := Undefined IntOverflow |}.
Proof.
  intros Ha Hb Hin.
  rewrite (main_resolved w _ dx dy (resolve_two prog a b dx dy start Ha Hb)).
  by rewrite Hin.
Qed.

Lemma oversized_product_undefined_witness :
  main (roomy true) ["./executable"; "65536"; "32768"]
  = {| events := [Clock]; result := Undefined IntOverflow |}.
Proof.
  apply (oversized_product_undefined (roomy true) _ _ _ 65536 32768);
    reflexivity.
Defined.

Lemma times_sizeof_float_negative n :
  n < 0 -> CInt.in_int n = true ->
  CInt.times_sizeof_float n = CInt.SIZE_MODULUS + 4 * n.
Proof.
  intros Hn Hin. unfold CInt.in_int, CInt.INT_MIN, CInt.INT_MAX in Hin.
  apply andb_true_iff in Hin as [Hmin%Z.leb_le _].
  unfold CInt.times_sizeof_float, CInt.to_size_t, CInt.SIZEOF_FLOAT.
  rewrite Z.mul_mod_idemp_l by done.
  symmetry. apply (Z.mod_unique _ _ (-1)); unfold CInt.SIZE_MODULUS; lia.
Qed.

(** X6: when the product of the dimensions is negative, its conversion to
    [size_t] wraps: each of the four requests is for [2^64 + 4*dx*dy] bytes,
    which is at least [2^64 - 2^33]. *)
Theorem negative_product_wraps (w : world) (prog a b : string) (dx dy : Z) :
  Libc.atoi a = Some dx -> Libc.atoi b = Some dy ->
  CInt.in_int (dx * dy) = true -> dx * dy < 0 ->
  2 ^ 64 - 2 ^ 33 <= 2 ^ 64 + 4 * (dx * dy) < 2 ^ 64
  /\ exists h_A h_B h_C h_check,
       List.filter is_malloc (events (main w [prog; a; b]))
       = [Malloc (2 ^ 64 + 4 * (dx * dy)) h_A; Malloc (2 ^ 64 + 4 * (dx * dy)) h_B;
          Malloc (2 ^ 64 + 4 * (dx * dy)) h_C; Malloc (2 ^ 64 + 4 * (dx * dy)) h_check].
Proof.
  intros Ha Hb Hin Hneg. split.
  - unfold CInt.in_int, CInt.INT_MIN in Hin.
    apply andb_true_iff in Hin as [Hmin%Z.leb_le _]. lia.
  - rewrite (main_resolved w _ dx dy (resolve_two prog a b dx dy start Ha Hb)).
    rewrite Hin. cbn [events]. rewrite complete_events_mallocs.
    rewrite times_sizeof_float_negative by done.
    by eexists _, _, _, _.
Qed.

Lemma negative_product_wraps_witness :
  2 ^ 64 - 2 ^ 33 <= 2 ^ 64 + 4 * (-4 * 7) < 2 ^ 64
  /\ exists h_A h_B h_C h_check,
       List.filter is_malloc (events (main exhausted ["./executable"; "-4"; "7"]))
       = [Malloc (2 ^ 64 + 4 * (-4 * 7)) h_A; Malloc (2 ^ 64 + 4 * (-4 * 7)) h_B;
          Malloc (2 ^ 64 + 4 * (-4 * 7)) h_C; Malloc (2 ^ 64 + 4 * (-4 * 7)) h_check].
Proof.
  apply (negative_product_wraps exhausted "./executable" "-4" "7" (-4) 7);
    first [reflexivity | lia].
Defined.

(** The two checkers do reject a use after [free] and a stray pointer. *)
Example use_after_free_rejected :
  quiet_after_free [Malloc 4 4096; Free 4096; PrintMatrix 4096 1 1] = false
  /\ uses_only (obtained [Malloc 4 4096]) [PrintMatrix 8192 1 1] = false.
Proof. split; reflexivity. Qed.

(** X7: [main] releases what it obtained and touches nothing afterwards: in
    every run the blocks passed to [free] are the blocks [malloc] returned,
    each once and in the same order, and after the first [free] nothing but
    [free] happens. *)
Theorem obtained_blocks_released (w : world) (argv : list string) :
  released (events (main w argv)) = obtained (events (main w argv))
  /\ quiet_after_free (events (main w argv)) = true.
Proof.
  destruct (main_cases w argv)
    as [[_ H]|[[_ [u H]]|[(dx & dy & _ & _ & H)|(dx & dy & _ & _ & H)]]];
    rewrite H; cbn [events]; try (split; reflexivity).
  unfold complete_events. generalize (CInt.times_sizeof_float (dx * dy)).
  intros bytes. destruct (small dx dy); split; reflexivity.
Qed.

(** A run that returns 0 went through all phases. *)
Lemma returned_zero_complete (w : world) (argv : list string) :
  result (main w argv) = Return 0 ->
  exists dx dy,
    resolve_dims argv start = (start, Next (dx, dy)) /\
    CInt.in_int (dx * dy) = true /\
    main w argv = {| events := complete_events w dx dy; result := Return 0 |}.
Proof.
  intros Hres.
  destruct (main_cases w argv)
    as [[_ H]|[[_ [u H]]|[(dx & dy & _ & _ & H)|(dx & dy & Hr & Hin & H)]]];
    try (rewrite H in Hres; discriminate Hres).
  by exists dx, dy.
Qed.

(** X8: what the three reported times cover.  In a run that returns 0 the
    clock is read in three pairs: the first interval holds the four
    allocations and the two initialisations, the second the host addition
    alone, the third the accelerator addition alone; the printouts, the
    verification and the cleanup are in none. *)
Theorem timed_intervals (w : world) (argv : list string) :
  result (main w argv) = Return 0 ->
  exists dx dy bytes h_A h_B h_C h_check,
    intervals None (events (main w argv))
    = [ [ Malloc bytes h_A; Malloc bytes h_B; Malloc bytes h_C; Malloc bytes h_check;
          InitializeMatrixSame h_A dx dy MAT_A_VAL "h_A";
          InitializeMatrixSame h_B dx dy MAT_B_VAL "h_B" ];
        [ CpuMatrixAdd h_A h_B h_check dx dy ];
        [ GpuMatrixAdd h_A h_B h_C dx dy ] ].
Proof.
  intros Hres.
  destruct (returned_zero_complete w argv Hres) as (dx & dy & _ & _ & H).
  rewrite H. cbn [events]. unfold complete_events.
  exists dx, dy, (CInt.times_sizeof_float (dx * dy)).
  generalize (CInt.times_sizeof_float (dx * dy)). intros bytes.
  eexists _, _, _, _. destruct (small dx dy); reflexivity.
Qed.

Lemma timed_intervals_witness :
  exists dx dy bytes h_A h_B h_C h_check,
    intervals None (events (main (roomy true) ["./executable"; "4"; "4"]))
    = [ [ Malloc bytes h_A; Malloc bytes h_B; Malloc bytes h_C; Malloc bytes h_check;
          InitializeMatrixSame h_A dx dy MAT_A_VAL "h_A";
          InitializeMatrixSame h_B dx dy MAT_B_VAL "h_B" ];
        [ CpuMatrixAdd h_A h_B h_check dx dy ];
        [ GpuMatrixAdd h_A h_B h_C dx dy ] ].
Proof.
  apply (timed_intervals (roomy true) ["./executable"; "4"; "4"]). reflexivity.
Defined.


(** *** What atoi lets through *)

Lemma digits_stop (r junk : string) (acc : Z) :
  all_digits r = true -> stops junk = true ->
  Libc.digits (String.append r junk) acc = Libc.digits r acc.
Proof.
  revert acc. induction r as [|c r IH]; intros acc Hr Hj.
  - destruct junk as [|c j]; [done|]. simpl in *.
    by destruct (Libc.digit c).
  - simpl in *. destruct (Libc.digit c); [by apply IH | done].
Qed.

Lemma atoi_digit_start (c : ascii) (r : string) (d : Z) :
  Libc.digit c = Some d ->
  Libc.atoi (String c r)
  = if CInt.in_int (Libc.digits r d) then Some (Libc.digits r d) else None.
Proof.
  intros Hd.
  destruct c as [[] [] [] [] [] [] [] []]; vm_compute in Hd; try discriminate Hd;
    injection Hd as <-; reflexivity.
Qed.

Lemma atoi_numeral_prefix (s junk : string) :
  numeral s = true -> stops junk = true ->
  Libc.atoi (String.append s junk) = Libc.atoi s.
Proof.
  intros Hs Hj. destruct s as [|c r]; [discriminate Hs|].
  cbn [numeral all_digits] in Hs.
  destruct (Libc.digit c) as [d|] eqn:Hd; [|discriminate Hs].
  change (String.append (String c r) junk) with (String c (String.append r junk)).
  rewrite !(atoi_digit_start c _ d Hd). by rewrite digits_stop.
Qed.

Lemma atoi_wordy (s : string) : wordy s = true -> Libc.atoi s = Some 0.
Proof.
  destruct s as [|c r]; [done|]. intros H.
  destruct c as [[] [] [] [] [] [] [] []]; vm_compute in H; try discriminate H;
    reflexivity.
Qed.

Lemma resolve_atoi_ext (prog a b a' b' : string) (s : state) :
  Libc.atoi a = Libc.atoi a' -> Libc.atoi b = Libc.atoi b' ->
  resolve_dims [prog; a; b] s = resolve_dims [prog; a'; b'] s.
Proof.
  intros Ha Hb.
  destruct (Libc.atoi a') as [dx|] eqn:Ha'.
  - destruct (Libc.atoi b') as [dy|] eqn:Hb'.
    + by rewrite (resolve_two _ a b dx dy), (resolve_two _ a' b' dx dy).
    + by rewrite (resolve_bad_second _ a b dx), (resolve_bad_second _ a' b' dx).
  - rewrite !resolve_bad_first; done || simpl; lia.
Qed.

(** X10: text after a number is not noticed: an argument made of a decimal
    numeral followed by anything that does not start with a digit gives the
    run the numeral alone gives. *)
Theorem trailing_text_ignored (w : world) (prog a b ja jb : string) :
  numeral a = true -> numeral b = true ->
  stops ja = true -> stops jb = true ->
  main w [prog; String.append a ja; String.append b jb] = main w [prog; a; b].
Proof.
  intros Ha Hb Hja Hjb. apply main_of_resolve.
  apply resolve_atoi_ext; by apply atoi_numeral_prefix.
Qed.

Lemma trailing_text_ignored_witness :
  main (roomy true) ["./executable"; String.append "4" "x"; String.append "5" ".5e3"]
  = main (roomy true) ["./executable"; "4"; "5"].
Proof.
  apply (trailing_text_ignored (roomy true) "./executable" "4" "5" "x" ".5e3");
    reflexivity.
Defined.

(** X11: arguments that are not numbers are not rejected: two arguments
    that start with neither white space, a sign nor a digit (the empty
    string included) are read as 0 and 0, and the run goes through all phases
    with empty matrices, dumps included, and returns 0. *)
Theorem words_run_as_zero (w : world) (prog a b : string) :
  wordy a = true -> wordy b = true ->
  main w [prog; a; b] = {| events := complete_events w 0 0; result := Return 0 |}
  /\ (exists h_A h_B h_C h_check,
        List.filter is_malloc (events (main w [prog; a; b]))
        = [Malloc 0 h_A; Malloc 0 h_B; Malloc 0 h_C; Malloc 0 h_check])
  /\ (exists h_C h_check,
        List.filter is_dump (events (main w [prog; a; b]))
        = [PrintMatrix h_check 0 0; PrintMatrix h_C 0 0]).
Proof.
  intros Ha Hb.
  rewrite (main_resolved w _ 0 0)
    by (apply resolve_two; by apply atoi_wordy).
  change (CInt.in_int (0 * 0)) with true. cbn [events].
  split; [done|]. split.
  - rewrite complete_events_mallocs. by eexists _, _, _, _.
  - by eexists _, _.
Qed.

Lemma words_run_as_zero_witness :
  main (roomy true) ["./executable"; "foo"; ""]
    = {| events := complete_events (roomy true) 0 0; result := Return 0 |}
  /\ (exists h_A h_B h_C h_check,
        List.filter is_malloc (events (main (roomy true) ["./executable"; "foo"; ""]))
        = [Malloc 0 h_A; Malloc 0 h_B; Malloc 0 h_C; Malloc 0 h_check])
  /\ (exists h_C h_check,
        List.filter is_dump (events (main (roomy true) ["./executable"; "foo"; ""]))
        = [PrintMatrix h_check 0 0; PrintMatrix h_C 0 0]).
Proof.
  apply (words_run_as_zero (roomy true) "./executable" "foo" ""); reflexivity.
Defined.

(** X12: [main] passes on no pointer of its own making: in every run, each
    buffer handed to a routine of [pch.h] or to [free] is a pointer that
    [malloc] returned in that run. *)
Theorem only_obtained_blocks_used (w : world) (argv : list string) :
  uses_only (obtained (events (main w argv))) (events (main w argv)) = true.
Proof.
  destruct (main_cases w argv)
    as [[_ H]|[[_ [u H]]|[(dx & dy & _ & _ & H)|(dx & dy & _ & _ & H)]]];
    rewrite H; cbn [events]; try reflexivity.
  unfold complete_events. generalize (CInt.times_sizeof_float (dx * dy)).
  intros bytes.
  destruct (small dx dy);
    cbn [app uses_only obtained omap forallb buffers mbind option_bind];
    repeat (apply andb_true_intro; split);
    first [reflexivity | repeat first [apply mem_here | apply mem_later]].
Qed.
End CoverageFacts.
